(** * Regex Replace Loader: a shallow embedding of [index.js]

    The loader receives a source text and an options object, and runs
    [String.prototype.replace] once per enabled stage.  The embedding has
    three layers:

    - the JavaScript values the loader dispatches on ([Prim], [JsValue]),
      thrown errors ([Exception], [Result]) and the options object;
    - the host primitives the loader calls: the [RegExp] constructor and
      [String.prototype.replace], written after ECMA-262 (GetSubstitution,
      RegExpBuiltinExec, RegExp.prototype[@@replace]) over a pattern matcher
      that is left abstract ([RegExpHost]);
    - the functions of [index.js] themselves: [typeOf], [getRegex],
      [getValueOrMatchFn], [getMatchFn], [replace], [regexReplaceLoader].

    Strings are sequences of 8-bit characters; numbers are integers. *)

From Stdlib Require Import String Ascii ZArith DecimalNat DecimalString.
From stdpp Require Import gmap strings list.

Local Open Scope string_scope.
Local Open Scope list_scope.

(** ** JavaScript values *)

(** Primitive values: what a replace callback can receive and what an
    options field can hold besides objects. *)
Inductive Prim : Type :=
| PUndefined
| PNull
| PBool (b : bool)
| PNumber (z : Z)
| PString (s : string).

(** The object built by [getMatchFn]: property keys are strings. *)
Abbreviation MatchRecord := (gmap string Prim).

(** Flags of a compiled pattern, [d g i m s u v y]. *)
Record RegExpFlags : Type := mkFlags {
  hasIndices : bool;
  global : bool;
  ignoreCase : bool;
  multiline : bool;
  dotAll : bool;
  unicode : bool;
  unicodeSets : bool;
  sticky : bool
}.

Definition noFlags : RegExpFlags :=
  mkFlags false false false false false false false false.

(** The host's pattern language and matcher.  [matcher p f S i] tries the
    pattern at index [i] of [S] and, on success, gives the length of the
    match and the captures (one entry per capturing group, [None] for a group
    that did not take part).  [pattern_valid p f] tells whether the pattern
    source is accepted under the flags [f] (the [u] and [v] flags change the
    grammar).  Patterns have numbered groups only: for a pattern with named
    groups a replace callback receives one more argument, after the input,
    which the arguments built here never have. *)
Class RegExpHost : Type := {
  Pattern : Type;
  pattern_valid : Pattern -> RegExpFlags -> bool;
  matcher : Pattern -> RegExpFlags -> string -> nat ->
            option (nat * list (option string))
}.

Section Values.
Context `{RegExpHost}.

(** A RegExp object. *)
Record RegExp : Type := mkRegExp {
  re_source : Pattern;
  re_flags : RegExpFlags;
  lastIndex : nat
}.

(** The values an options field can hold.  [JsObject] and [JsArray] stand
    for any plain object and any array.  A function is one that returns a
    string for every object it is given: a value function that throws is
    outside these values, and statements about what an invocation throws say
    so where a function could be called. *)
Inductive JsValue : Type :=
| JsPrim (p : Prim)
| JsRegExp (r : RegExp)
| JsFunction (f : MatchRecord -> string)
| JsObject
| JsArray.

(** What [getRegex] hands to [String.prototype.replace]. *)
Inductive SearchValue : Type :=
| SVString (s : string)
| SVRegExp (r : RegExp).

(** What [getValueOrMatchFn] hands to [String.prototype.replace]: a
    template, or a function called with the positional arguments. *)
Inductive ReplaceValue : Type :=
| RVString (template : string)
| RVFunction (f : list Prim -> string).

End Values.

Abbreviation JsUndefined := (JsPrim PUndefined).
Abbreviation JsNull := (JsPrim PNull).
Abbreviation JsBool b := (JsPrim (PBool b)).
Abbreviation JsNumber z := (JsPrim (PNumber z)).
Abbreviation JsString s := (JsPrim (PString s)).

(** ** Errors *)

(** [Error msg] is [new Error(msg)]; [SyntaxError] is what the [RegExp]
    constructor throws (its message is implementation-defined). *)
Inductive Exception : Type :=
| Error (message : string)
| SyntaxError.

Inductive Result (A : Type) : Type :=
| Ok (a : A)
| Throw (e : Exception).
Arguments Ok {A} a.
Arguments Throw {A} e.

#[global] Instance result_ret : MRet Result := fun A a => Ok a.

#[global] Instance result_bind : MBind Result := fun A B k r =>
  match r with
  | Ok a => k a
  | Throw e => Throw e
  end.

(** ** The options object *)

Section Options.
Context `{RegExpHost}.

(** One stage: the fields the loader reads.  [flags] is absent or a
    string. *)
Record Stage : Type := mkStage {
  regex : JsValue;
  flags : option string;
  value : JsValue;
  enable : JsValue
}.

(** The options object: its own stage fields, and its [stages] field when
    that is an array ([None] when it is absent or not an array). *)
Record LoaderOptions : Type := mkOptions {
  top : Stage;
  stages : option (list Stage)
}.

End Options.

(** ** Host primitives: the [RegExp] constructor *)

(** One flag character added to the flags read so far: a repeated or unknown
    character is refused. *)
Definition add_flag (c : ascii) (f : RegExpFlags) : option RegExpFlags :=
  let 'mkFlags d g i m s u v y := f in
  if (c =? "d")%char then (if d then None else Some (mkFlags true g i m s u v y))
  else if (c =? "g")%char then (if g then None else Some (mkFlags d true i m s u v y))
  else if (c =? "i")%char then (if i then None else Some (mkFlags d g true m s u v y))
  else if (c =? "m")%char then (if m then None else Some (mkFlags d g i true s u v y))
  else if (c =? "s")%char then (if s then None else Some (mkFlags d g i m true u v y))
  else if (c =? "u")%char then (if u then None else Some (mkFlags d g i m s true v y))
  else if (c =? "v")%char then (if v then None else Some (mkFlags d g i m s u true y))
  else if (c =? "y")%char then (if y then None else Some (mkFlags d g i m s u v true))
  else None.

Fixpoint parse_flags_from (F : string) (acc : RegExpFlags) : option RegExpFlags :=
  match F with
  | EmptyString => if unicode acc && unicodeSets acc then None else Some acc
  | String c F' =>
      match add_flag c acc with
      | Some acc' => parse_flags_from F' acc'
      | None => None
      end
  end.

(** The flags string of [new RegExp(pattern, flags)], parsed. *)
Definition parse_flags (F : string) : option RegExpFlags :=
  parse_flags_from F noFlags.

Section Host.
Context `{RegExpHost}.

(** [new RegExp(pattern, flags)] for a [pattern] that is a RegExp object:
    the pattern source is compiled again, under [flags] when they are given
    and under the object's own flags otherwise; the new object starts with
    [lastIndex] 0.  Flags that do not parse, or under which the source is not
    a pattern, throw a SyntaxError. *)
Definition RegExp_new (pattern : RegExp) (flags : option string) : Result RegExp :=
  match flags with
  | None => Ok (mkRegExp (re_source pattern) (re_flags pattern) 0)
  | Some F =>
      match parse_flags F with
      | None => Throw SyntaxError
      | Some f =>
          if pattern_valid (re_source pattern) f
          then Ok (mkRegExp (re_source pattern) f 0)
          else Throw SyntaxError
      end
  end.

End Host.

(** ** Host primitives: [String.prototype.replace] *)

(** The substring of [s] from index [n] to its end. *)
Definition substringFrom (n : nat) (s : string) : string :=
  substring n (String.length s - n) s.

Definition is_digit (c : ascii) : bool :=
  (48 <=? nat_of_ascii c)%nat && (nat_of_ascii c <=? 57)%nat.

Definition digit_value (c : ascii) : nat := nat_of_ascii c - 48.

(** The text a [$n] or [$nn] reference stands for: capture [index] when it
    exists (the empty string when that group did not take part), and the
    reference itself otherwise. *)
Definition capture_ref (captures : list (option string)) (index : nat)
    (ref : string) : string :=
  if (1 <=? index)%nat && (index <=? length captures)%nat then
    match captures !! (index - 1) with
    | Some (Some capture) => capture
    | _ => EmptyString
    end
  else ref.

(** GetSubstitution of ECMA-262, without named captures: expands [$$], [$&],
    [$`], [$'], [$n] and [$nn] in a replacement template. *)
Fixpoint GetSubstitution (matched str : string) (position : nat)
    (captures : list (option string)) (template : string) : string :=
  match template with
  | EmptyString => EmptyString
  | String c rest =>
      if negb (c =? "$")%char
      then String c (GetSubstitution matched str position captures rest)
      else
        match rest with
        | EmptyString => String c EmptyString
        | String c1 rest1 =>
            if (c1 =? "$")%char then
              String "$" (GetSubstitution matched str position captures rest1)
            else if (c1 =? "`")%char then
              substring 0 position str
                +:+ GetSubstitution matched str position captures rest1
            else if (c1 =? "&")%char then
              matched +:+ GetSubstitution matched str position captures rest1
            else if (c1 =? "'")%char then
              substringFrom (position + String.length matched) str
                +:+ GetSubstitution matched str position captures rest1
            else if is_digit c1 then
              let one :=
                capture_ref captures (digit_value c1)
                  (String c (String c1 EmptyString))
                  +:+ GetSubstitution matched str position captures rest1 in
              match rest1 with
              | EmptyString => one
              | String c2 rest2 =>
                  let index := 10 * digit_value c1 + digit_value c2 in
                  if is_digit c2 && (index <=? length captures)%nat then
                    capture_ref captures index
                      (String c (String c1 (String c2 EmptyString)))
                      +:+ GetSubstitution matched str position captures rest2
                  else one
              end
            else String c (GetSubstitution matched str position captures rest)
        end
  end.

(** The replacement text for one match. *)
Definition replacement_for (replaceValue : ReplaceValue) (matched : string)
    (captures : list (option string)) (position : nat) (str : string) : string :=
  match replaceValue with
  | RVFunction f =>
      f (PString matched
           :: map (fun c => from_option PString PUndefined c) captures
           ++ [PNumber (Z.of_nat position); PString str])
  | RVString template => GetSubstitution matched str position captures template
  end.

(** [str.replace(searchString, replaceValue)] for a string [searchString]:
    the first occurrence of the string itself is replaced. *)
Definition replaceString (str searchString : string)
    (replaceValue : ReplaceValue) : string :=
  match index 0 searchString str with
  | None => str
  | Some pos =>
      let preceding := substring 0 pos str in
      let following := substringFrom (pos + String.length searchString) str in
      preceding +:+ replacement_for replaceValue searchString [] pos str
                +:+ following
  end.

(** The array [RegExpBuiltinExec] returns: the matched text at key [0], the
    captures at keys [1..], and the [index] of the match. *)
Record ExecResult : Type := mkExecResult {
  res_matched : string;
  res_index : nat;
  res_captures : list (option string)
}.

Section RegExpReplace.
Context `{RegExpHost}.

(** The search loop of RegExpBuiltinExec: the matcher is tried at [i], then
    at [i + 1], ..., over the [n] indices that remain up to the length of
    [S]; a sticky pattern is tried at [i] only.  On success: the index of the
    match, its length and its captures. *)
Fixpoint scan (p : Pattern) (f : RegExpFlags) (S : string) (n i : nat)
    : option (nat * nat * list (option string)) :=
  match n with
  | O => None
  | Datatypes.S n' =>
      match matcher p f S i with
      | Some (l, caps) => Some (i, l, caps)
      | None => if sticky f then None else scan p f S n' (Datatypes.S i)
      end
  end.

(** RegExpBuiltinExec: the search starts at [lastIndex] for a global or
    sticky pattern and at 0 otherwise; a global or sticky pattern has its
    [lastIndex] set to the end of the match, or to 0 on failure. *)
Definition RegExpBuiltinExec (R : RegExp) (S : string)
    : option ExecResult * RegExp :=
  let f := re_flags R in
  let tracked := global f || sticky f in
  let start := if tracked then lastIndex R else 0 in
  match scan (re_source R) f S (Datatypes.S (String.length S) - start) start with
  | None =>
      (None, if tracked then mkRegExp (re_source R) f 0 else R)
  | Some (i, l, caps) =>
      (Some (mkExecResult (substring i l S) i caps),
       if tracked then mkRegExp (re_source R) f (i + l) else R)
  end.

(** The match loop of RegExp.prototype[@@replace]: one match for a pattern
    that is not global; for a global one, matches are collected until the
    search fails, [lastIndex] being advanced by one after an empty match.
    [n] bounds the number of rounds. *)
Fixpoint collect (n : nat) (R : RegExp) (S : string) : list ExecResult :=
  match n with
  | O => []
  | Datatypes.S n' =>
      match RegExpBuiltinExec R S with
      | (None, _) => []
      | (Some result, R') =>
          result ::
          (if global (re_flags R) then
             collect n'
               (if String.eqb (res_matched result) EmptyString
                then mkRegExp (re_source R') (re_flags R')
                       (Datatypes.S (lastIndex R'))
                else R')
               S
           else [])
      end
  end.

(** The second loop of RegExp.prototype[@@replace]: the results are spliced
    into [S] from left to right. *)
Fixpoint splice (S : string) (replaceValue : ReplaceValue)
    (results : list ExecResult) (accumulatedResult : string)
    (nextSourcePosition : nat) : string :=
  match results with
  | [] =>
      if (String.length S <=? nextSourcePosition)%nat then accumulatedResult
      else accumulatedResult +:+ substringFrom nextSourcePosition S
  | result :: results' =>
      let position := Nat.min (res_index result) (String.length S) in
      let replacement :=
        replacement_for replaceValue (res_matched result) (res_captures result)
          position S in
      if (nextSourcePosition <=? position)%nat then
        splice S replaceValue results'
          (accumulatedResult
             +:+ substring nextSourcePosition (position - nextSourcePosition) S
             +:+ replacement)
          (position + String.length (res_matched result))
      else splice S replaceValue results' accumulatedResult nextSourcePosition
  end.

(** RegExp.prototype[@@replace].  A global pattern starts from [lastIndex]
    0.  Every round but the last moves [lastIndex] forward, so
    [length S + 2] rounds are never exhausted (see [collect_rounds]). *)
Definition RegExpReplace (R : RegExp) (S : string)
    (replaceValue : ReplaceValue) : string :=
  let R0 :=
    if global (re_flags R) then mkRegExp (re_source R) (re_flags R) 0 else R in
  splice S replaceValue (collect (String.length S + 2) R0 S) EmptyString 0.

(** [str.replace(searchValue, replaceValue)]. *)
Definition String_prototype_replace (str : string) (searchValue : SearchValue)
    (replaceValue : ReplaceValue) : string :=
  match searchValue with
  | SVString searchString => replaceString str searchString replaceValue
  | SVRegExp R => RegExpReplace R str replaceValue
  end.

End RegExpReplace.

(** ** The loader, [index.js] *)

Definition NAME : string := "Regex Replace Loader".

(** The double quote character, which the error messages contain. *)
Definition dquote : string := String (ascii_of_nat 34) EmptyString.

Definition regex_message : string :=
  NAME +:+ ": option " +:+ dquote +:+ "regex" +:+ dquote
       +:+ " must be a string or a RegExp object".

Definition value_message : string :=
  NAME +:+ ": option " +:+ dquote +:+ "value" +:+ dquote
       +:+ " must be a string or a function".

(** ToString of an array index, as a property key. *)
Definition ToString_nat (i : nat) : string :=
  NilEmpty.string_of_uint (Nat.to_uint i).

(** [array[k]] for an integer [k]: [undefined] outside the array. *)
Definition element (array : list Prim) (k : Z) : Prim :=
  if (k <? 0)%Z then PUndefined
  else default PUndefined (array !! Z.to_nat k).

(** [Array.prototype.reduce]: the callback receives the accumulator, the
    element and its index, counted from [i]. *)
Fixpoint reduce {A B : Type} (callback : B -> A -> nat -> B) (array : list A)
    (i : nat) (initialValue : B) : B :=
  match array with
  | [] => initialValue
  | g :: array' => reduce callback array' (Datatypes.S i) (callback initialValue g i)
  end.

Section Loader.
Context `{RegExpHost}.

(** [typeOf]: the class name [Object.prototype.toString] reports. *)
Definition typeOf (object : JsValue) : string :=
  match object with
  | JsUndefined => "Undefined"
  | JsNull => "Null"
  | JsBool _ => "Boolean"
  | JsNumber _ => "Number"
  | JsString _ => "String"
  | JsRegExp _ => "RegExp"
  | JsFunction _ => "Function"
  | JsObject => "Object"
  | JsArray => "Array"
  end.

(** The [typeof] operator. *)
Definition typeof (v : JsValue) : string :=
  match v with
  | JsUndefined => "undefined"
  | JsNull => "object"
  | JsBool _ => "boolean"
  | JsNumber _ => "number"
  | JsString _ => "string"
  | JsFunction _ => "function"
  | JsRegExp _ | JsObject | JsArray => "object"
  end.

(** The truthiness [if (stage.enable)] tests. *)
Definition ToBoolean (v : JsValue) : bool :=
  match v with
  | JsUndefined | JsNull => false
  | JsBool b => b
  | JsNumber z => negb (z =? 0)%Z
  | JsString s => negb (String.eqb s EmptyString)
  | JsRegExp _ | JsFunction _ | JsObject | JsArray => true
  end.

(** [getRegex]: a string is returned as it is, a RegExp object is compiled
    again with [flags], anything else throws. *)
Definition getRegex (regex : JsValue) (flags : option string)
    : Result SearchValue :=
  match regex with
  | JsString s => Ok (SVString s)
  | JsRegExp r => r' ← RegExp_new r flags; Ok (SVRegExp r')
  | _ => Throw (Error regex_message)
  end.

(** [getMatchFn]: the function handed to [String.prototype.replace].  From
    its [arguments] it builds an object that starts as
    [{index: arguments[len - 2], input: arguments[len - 1]}] and gets
    [arguments.slice(0, -2)] at the keys [0], [1], ..., and calls [valueFn]
    with it. *)
Definition getMatchFn (valueFn : MatchRecord -> string)
    : list Prim -> string :=
  fun arguments =>
    let len := Z.of_nat (length arguments) in
    let match_ :=
      reduce (fun (map : MatchRecord) g i => <[ToString_nat i := g]> map)
        (take (length arguments - 2) arguments)
        0
        (<["index" := element arguments (len - 2)]>
           (<["input" := element arguments (len - 1)]> ∅)) in
    valueFn match_.

(** [getValueOrMatchFn]: a function is wrapped by [getMatchFn], a string is
    returned as it is, anything else throws. *)
Definition getValueOrMatchFn (value : JsValue) : Result ReplaceValue :=
  match value with
  | JsFunction valueFn => Ok (RVFunction (getMatchFn valueFn))
  | JsString s => Ok (RVString s)
  | _ => Throw (Error value_message)
  end.

(** [replace]. *)
Definition replace (regex : SearchValue) (source : string) (options : Stage)
    : Result string :=
  valueOrFn ← getValueOrMatchFn (value options);
  Ok (String_prototype_replace source regex valueOrFn).

(** The callback of [stages.forEach]: the new value of [source]. *)
Definition stage_callback (source : string) (stage : Stage) : Result string :=
  if ToBoolean (enable stage) then
    regex ← getRegex (regex stage) (flags stage);
    replace regex source stage
  else Ok source.

(** [stages.forEach(...)], threading the variable [source]; a throw ends
    the iteration. *)
Fixpoint forEach (stages : list Stage) (source : string) : Result string :=
  match stages with
  | [] => Ok source
  | stage :: stages' =>
      source' ← stage_callback source stage;
      forEach stages' source'
  end.

(** [Array.isArray(options.stages) ? options.stages : [options]]. *)
Definition stages_of (options : LoaderOptions) : list Stage :=
  match stages options with
  | Some array => array
  | None => [top options]
  end.

(** [regexReplaceLoader], with the options object [getOptions(this)]
    returns as a parameter. *)
Definition regexReplaceLoader (options : LoaderOptions) (source : string)
    : Result string :=
  forEach (stages_of options) source.

End Loader.

(** ** A host instance: a backtracking matcher for a fragment of the pattern
    language

    Literal characters, [\d], [.], sequence, alternation, greedy repetition
    with a lower bound ([r*] is [Repeat 0 r], [r+] is [Repeat 1 r]) and
    numbered capturing groups ([Group 0 r] is the first group).  It follows
    the matcher of ECMA-262: continuations, captures cleared on each round of
    a repetition, an empty round refused.  A round of a repetition lowers
    [min] or consumes a character, so [min + length s + 1] rounds are enough.
    There are no named groups, for which a replace callback would receive one
    more argument after the input. *)
Module Backtracking.

Inductive Regex : Type :=
| Empty
| Char (c : ascii)
| Digit
| Dot
| Seq (r1 r2 : Regex)
| Alt (r1 r2 : Regex)
| Repeat (min : nat) (r : Regex)
| Group (g : nat) (r : Regex).

(** The capturing groups of a pattern. *)
Fixpoint groups_of (r : Regex) : list nat :=
  match r with
  | Empty | Char _ | Digit | Dot => []
  | Seq r1 r2 | Alt r1 r2 => groups_of r1 ++ groups_of r2
  | Repeat _ r1 => groups_of r1
  | Group g r1 => g :: groups_of r1
  end.

Definition ngroups (r : Regex) : nat :=
  foldr (fun g n => Nat.max (Datatypes.S g) n) 0 (groups_of r).

Definition clear (groups : list nat) (caps : list (option string))
    : list (option string) :=
  foldr (fun g caps' => <[g := None]> caps') caps groups.

(** Canonicalize under [ignoreCase]: lower-case letters to upper case. *)
Definition canonicalize (f : RegExpFlags) (c : ascii) : ascii :=
  let n := nat_of_ascii c in
  if ignoreCase f && (97 <=? n)%nat && (n <=? 122)%nat
  then ascii_of_nat (n - 32) else c.

Definition line_terminator (c : ascii) : bool :=
  (nat_of_ascii c =? 10)%nat || (nat_of_ascii c =? 13)%nat.

(** One character of the input against a test. *)
Definition one {R : Type} (test : ascii -> bool) (s : string)
    (k : string -> option R) : option R :=
  match s with
  | String c s' => if test c then k s' else None
  | EmptyString => None
  end.

Fixpoint rmatch {R : Type} (f : RegExpFlags) (r : Regex) (s : string)
    (caps : list (option string))
    (k : string -> list (option string) -> option R) {struct r} : option R :=
  match r with
  | Empty => k s caps
  | Char c =>
      one (fun c' => (canonicalize f c =? canonicalize f c')%char) s
        (fun s' => k s' caps)
  | Digit => one is_digit s (fun s' => k s' caps)
  | Dot =>
      one (fun c' => dotAll f || negb (line_terminator c')) s
        (fun s' => k s' caps)
  | Seq r1 r2 =>
      rmatch f r1 s caps (fun s' caps' => rmatch f r2 s' caps' k)
  | Alt r1 r2 =>
      match rmatch f r1 s caps k with
      | Some z => Some z
      | None => rmatch f r2 s caps k
      end
  | Group g r1 =>
      rmatch f r1 s caps (fun s' caps' =>
        k s' (<[g := Some (substring 0 (String.length s - String.length s') s)]>
                caps'))
  | Repeat min r1 =>
      (fix rep (fuel min : nat) (s : string) (caps : list (option string))
           {struct fuel} : option R :=
         match fuel with
         | O => None
         | Datatypes.S fuel' =>
             let d := fun s' caps' =>
               if (min =? 0)%nat && (String.length s' =? String.length s)%nat
               then None
               else rep fuel' (Nat.pred min) s' caps' in
             let cleared := clear (groups_of r1) caps in
             if (min =? 0)%nat then
               match rmatch f r1 s cleared d with
               | Some z => Some z
               | None => k s caps
               end
             else rmatch f r1 s cleared d
         end) (min + String.length s + 1) min s caps
  end.

(** The pattern tried at index [i] of [S]. *)
Definition backtrack (p : Regex) (f : RegExpFlags) (S : string) (i : nat)
    : option (nat * list (option string)) :=
  let s := substringFrom i S in
  rmatch f p s (replicate (ngroups p) None)
    (fun s' caps => Some (String.length s - String.length s', caps)).

#[export] Instance host : RegExpHost := {|
  Pattern := Regex;
  pattern_valid := fun _ _ => true;
  matcher := backtrack
|}.

(** [/(\d+)-(\d+)/] *)
Definition two_numbers : Regex :=
  Seq (Group 0 (Repeat 1 Digit)) (Seq (Char "-") (Group 1 (Repeat 1 Digit))).

(** [/[0-9]/], written with [\d]. *)
Definition a_digit : Regex := Digit.

End Backtracking.

(** ** Sample configurations, over the backtracking host *)
Module Samples.
Import Backtracking.

(** [{regex: r, value: v, enable: e}] *)
Definition stage_of (r v e : JsValue) : Stage := mkStage r None v e.

(** A configuration that is one stage, and one with a [stages] array. *)
Definition single (stage : Stage) : LoaderOptions := mkOptions stage None.

Definition pipeline (array : list Stage) : LoaderOptions :=
  mkOptions (stage_of JsUndefined JsUndefined JsUndefined) (Some array).

Definition digits_to_X : Stage :=
  stage_of (JsString "[0-9]+") (JsString "X") (JsBool true).

Definition digit_to_hash : Stage :=
  stage_of (JsString "[0-9]") (JsString "#") (JsBool true).

Definition one_to_hash : Stage :=
  stage_of (JsString "1") (JsString "#") (JsBool true).

Definition f_to_b : Stage :=
  stage_of (JsString "f") (JsString "b") (JsBool true).

Definition b_to_c : Stage :=
  stage_of (JsString "b") (JsString "c") (JsBool true).

Definition a_to_Z (e : JsValue) : Stage :=
  stage_of (JsString "a") (JsString "Z") e.

Definition regex_42 : Stage :=
  stage_of (JsNumber 42) (JsString "X") (JsBool true).

Definition value_42 : Stage :=
  stage_of (JsString "a") (JsNumber 42) (JsBool true).

Definition both_42 (e : JsValue) : Stage :=
  stage_of (JsNumber 42) (JsNumber 42) e.

(** [{regex: /(\d+)-(\d+)/, value: valueFn, enable: true}] *)
Definition numbers (valueFn : MatchRecord -> string) : Stage :=
  stage_of (JsRegExp (mkRegExp two_numbers noFlags 0)) (JsFunction valueFn)
    (JsBool true).

(** [{regex: /\d/, flags: F, value: "#", enable: true}] *)
Definition digit_with_flags (F : string) : Stage :=
  mkStage (JsRegExp (mkRegExp a_digit noFlags 0)) (Some F) (JsString "#")
    (JsBool true).

(** [{regex: "(\\d+)-(\\d+)", value: valueFn, enable: true}]: the source of
    [two_numbers] written as a string. *)
Definition numbers_as_string (valueFn : MatchRecord -> string) : Stage :=
  stage_of (JsString "(\d+)-(\d+)") (JsFunction valueFn) (JsBool true).

(** What the value function of [numbers] receives for "10-20". *)
Definition record_10_20 : MatchRecord :=
  <["0" := PString "10-20"]>
    (<["1" := PString "10"]>
       (<["2" := PString "20"]>
          (<["index" := PNumber 0]>
             (<["input" := PString "10-20"]> ∅)))).

End Samples.

(** ** Notions the statements use *)

(** SyntaxCharacter of ECMA-262: the characters a pattern source gives a
    meaning other than themselves. *)
Definition is_syntax_character (c : ascii) : bool :=
  existsb (fun d => (c =? d)%char)
    (list_ascii_of_string "^$\.*+?()[]{}|").

(** A pattern source that stands for its own text: no syntax character. *)
Definition plain_text (s : string) : bool :=
  forallb (fun c => negb (is_syntax_character c)) (list_ascii_of_string s).

(** [pre] and [post] place an occurrence of [s] in [str]. *)
Definition occurrence_at (s str pre post : string) : Prop :=
  str = pre +:+ s +:+ post.

(** The occurrence placed by [pre] is the leftmost one. *)
Definition leftmost (s str pre : string) : Prop :=
  forall pre' post', occurrence_at s str pre' post' ->
    String.length pre <= String.length pre'.

(** What [String.prototype.replace] searches for occurs in [str]: the text
    itself for a string, a match of the pattern at some index for a RegExp
    object. *)
Definition occurs `{RegExpHost} (searchValue : SearchValue) (str : string)
    : Prop :=
  match searchValue with
  | SVString s => exists pre post, occurrence_at s str pre post
  | SVRegExp R =>
      exists i, i <= String.length str /\
        is_Some (matcher (re_source R) (re_flags R) str i)
  end.

(** [match[k]] read by a value function, and [+] on what it reads. *)
Definition get (record : MatchRecord) (key : string) : Prim :=
  default PUndefined (record !! key).

Definition Prim_to_string (p : Prim) : string :=
  match p with
  | PUndefined => "undefined"
  | PNull => "null"
  | PBool b => if b then "true" else "false"
  | PNumber z =>
      match z with
      | Z0 => "0"
      | Zpos n => ToString_nat (Pos.to_nat n)
      | Zneg n => "-" +:+ ToString_nat (Pos.to_nat n)
      end
  | PString s => s
  end.

(** [function (match) { return match[1] + "+" + match[2] }] *)
Definition plus_of_groups (match_ : MatchRecord) : string :=
  Prim_to_string (get match_ "1") +:+ "+" +:+ Prim_to_string (get match_ "2").

(** ** [typeOf] as the source computes it *)

(** [Object.prototype.toString.call(object)] *)
Definition Object_prototype_toString `{RegExpHost} (object : JsValue)
    : string :=
  match object with
  | JsUndefined => "[object Undefined]"
  | JsNull => "[object Null]"
  | JsBool _ => "[object Boolean]"
  | JsNumber _ => "[object Number]"
  | JsString _ => "[object String]"
  | JsRegExp _ => "[object RegExp]"
  | JsFunction _ => "[object Function]"
  | JsObject => "[object Object]"
  | JsArray => "[object Array]"
  end.

(** [s.slice(start, end)]: a negative bound counts from the end of [s],
    and both are clamped to [s]. *)
Definition slice (s : string) (start end_ : Z) : string :=
  let len := Z.of_nat (String.length s) in
  let from :=
    if (start <? 0)%Z then Z.max (len + start) 0 else Z.min start len in
  let to :=
    if (end_ <? 0)%Z then Z.max (len + end_) 0 else Z.min end_ len in
  substring (Z.to_nat from) (Z.to_nat (Z.max (to - from) 0)) s.

(** [Object.prototype.toString.call(object).slice(8, -1)] *)
Definition typeOf_sliced `{RegExpHost} (object : JsValue) : string :=
  slice (Object_prototype_toString object) 8 (-1).

(** ** Further notions the statements use *)

(** [c] occurs in [s]. *)
Fixpoint contains (c : ascii) (s : string) : bool :=
  match s with
  | EmptyString => false
  | String c' s' => (c =? c')%char || contains c s'
  end.

(** The flag characters of the pattern language. *)
Definition is_flag_character (c : ascii) : bool := contains c "dgimsuvy".

(** The flag [c] stands for is set in [f]. *)
Definition flag_set (c : ascii) (f : RegExpFlags) : bool :=
  if (c =? "d")%char then hasIndices f
  else if (c =? "g")%char then global f
  else if (c =? "i")%char then ignoreCase f
  else if (c =? "m")%char then multiline f
  else if (c =? "s")%char then dotAll f
  else if (c =? "u")%char then unicode f
  else if (c =? "v")%char then unicodeSets f
  else if (c =? "y")%char then sticky f
  else false.

(** A replacement template without [$]. *)
Definition no_dollar (template : string) : bool :=
  negb (contains "$" template).

(** A replacement template whose every [$] is followed by a digit: its
    only references are [$n] and [$nn]. *)
Fixpoint group_references_only (template : string) : bool :=
  match template with
  | EmptyString => true
  | String c rest =>
      if (c =? "$")%char then
        match rest with
        | EmptyString => false
        | String d rest' => is_digit d && group_references_only rest'
        end
      else group_references_only rest
  end.

(** The matches of a list lie from [lo] on, each after the end of the one
    before it and at a greater index. *)
Fixpoint non_overlapping (lo : nat) (results : list ExecResult) : Prop :=
  match results with
  | [] => True
  | result :: results' =>
      lo <= res_index result
      /\ non_overlapping
           (res_index result
            + Nat.max 1 (String.length (res_matched result)))
           results'
  end.

(** The stage is one that cannot throw: its [regex] is a string, or a
    RegExp object given without [flags], and its [value] is a string. *)
Definition string_valued `{RegExpHost} (stage : Stage) : Prop :=
  (typeOf (regex stage) = "String"
   \/ (typeOf (regex stage) = "RegExp" /\ flags stage = None))
  /\ typeof (value stage) = "string".

(** The reasons for which a stage throws [e] without calling a value
    function: it is enabled, and its [regex] is neither a string nor a RegExp
    object ([e] is the error about option "regex"), or its [regex] is a
    RegExp object and the host refuses the [flags] given with it ([e] is a
    SyntaxError), or its [regex] resolves and its [value] is neither a string
    nor a function ([e] is the error about option "value"). *)
Definition throw_reason `{RegExpHost} (stage : Stage) (e : Exception)
    : Prop :=
  ToBoolean (enable stage) = true
  /\ ((e = Error regex_message
       /\ typeOf (regex stage) <> "String"
       /\ typeOf (regex stage) <> "RegExp")
      \/ (e = SyntaxError
          /\ exists r F,
               regex stage = JsRegExp r /\ flags stage = Some F
               /\ (parse_flags F = None
                   \/ exists f, parse_flags F = Some f
                        /\ pattern_valid (re_source r) f = false))
      \/ (e = Error value_message
          /\ (exists resolved,
                getRegex (regex stage) (flags stage) = Ok resolved)
          /\ typeof (value stage) <> "string"
          /\ typeof (value stage) <> "function")).

(** No enabled stage has a function as [value]: the invocation calls no
    value function. *)
Definition calls_no_function `{RegExpHost} (options : LoaderOptions) : Prop :=
  Forall (fun stage =>
            ToBoolean (enable stage) = true ->
            typeof (value stage) <> "function")
         (stages_of options).

(** ** Strings *)

Section Strings.

Lemma append_nil (s : string) : EmptyString +:+ s = s.
Proof. reflexivity. Qed.

Lemma append_cons (c : ascii) (s t : string) :
  String c s +:+ t = String c (s +:+ t).
Proof. reflexivity. Qed.

Lemma length_append (s1 s2 : string) :
  String.length (s1 +:+ s2) = String.length s1 + String.length s2.
Proof.
  induction s1 as [|c s1 IH]; [reflexivity |].
  rewrite append_cons. simpl. now rewrite IH.
Qed.

Lemma append_assoc (s1 s2 s3 : string) :
  (s1 +:+ s2) +:+ s3 = s1 +:+ s2 +:+ s3.
Proof.
  induction s1 as [|c s1 IH]; [reflexivity |].
  rewrite !append_cons. now rewrite IH.
Qed.

Lemma substring_0_0 (s : string) : substring 0 0 s = EmptyString.
Proof. now destruct s. Qed.

Lemma substring_all (s : string) : substring 0 (String.length s) s = s.
Proof. induction s as [|c s IH]; simpl; [reflexivity | now rewrite IH]. Qed.

Lemma substringFrom_0 (s : string) : substringFrom 0 s = s.
Proof. unfold substringFrom. rewrite Nat.sub_0_r. apply substring_all. Qed.

Lemma substring_skip (pre s : string) (n m : nat) :
  substring (String.length pre + n) m (pre +:+ s) = substring n m s.
Proof.
  induction pre as [|c pre IH]; [reflexivity |].
  rewrite append_cons. simpl. apply IH.
Qed.

Lemma substring_prefix (pre s : string) :
  substring 0 (String.length pre) (pre +:+ s) = pre.
Proof.
  induction pre as [|c pre IH]; [apply substring_0_0 |].
  rewrite append_cons. simpl. now rewrite IH.
Qed.

Lemma substringFrom_skip (pre s : string) :
  substringFrom (String.length pre) (pre +:+ s) = s.
Proof.
  unfold substringFrom. rewrite length_append.
  replace (String.length pre) with (String.length pre + 0) at 1 by lia.
  rewrite substring_skip.
  replace (String.length pre + String.length s - String.length pre)
    with (String.length s) by lia.
  apply substring_all.
Qed.

Lemma length_substring (s : string) (n m : nat) :
  String.length (substring n m s) = Nat.min m (String.length s - n).
Proof.
  revert n m. induction s as [|c s IH]; intros [|n] [|m]; simpl; try reflexivity.
  - now rewrite IH, Nat.sub_0_r.
  - apply IH.
  - apply IH.
Qed.

(** A string is the text before an index, the [l] characters at it, and the
    text after them. *)
Lemma substring_split (s : string) (m l : nat) :
  m + l <= String.length s ->
  s = substring 0 m s +:+ substring m l s +:+ substringFrom (m + l) s.
Proof.
  unfold substringFrom. revert m l.
  induction s as [|c s IH]; intros m l Hle; simpl in Hle.
  - assert (m = 0) by lia. assert (l = 0) by lia. now subst.
  - destruct m as [|m].
    + destruct l as [|l]; simpl.
      * now rewrite substring_all.
      * rewrite append_nil, append_cons. f_equal.
        specialize (IH 0 l). rewrite substring_0_0, append_nil in IH.
        apply IH. simpl. lia.
    + simpl. rewrite append_cons. f_equal. apply IH. lia.
Qed.

Lemma length_zero_iff_nil (s : string) :
  String.length s = 0 -> s = EmptyString.
Proof. now destruct s. Qed.

Lemma index_empty (s : string) : String.index 0 EmptyString s = Some 0.
Proof. now destruct s. Qed.

(** An occurrence found by [String.index] lies within the string. *)
Lemma index_bound (s str : string) (m : nat) :
  String.index 0 s str = Some m -> m + String.length s <= String.length str.
Proof.
  intros Hm. destruct s as [|c s].
  - rewrite index_empty in Hm. injection Hm as <-. simpl. lia.
  - pose proof (index_correct1 _ _ _ _ Hm) as Hsub.
    apply (f_equal String.length) in Hsub.
    rewrite length_substring in Hsub.
    assert (String.length (String c s) = S (String.length s)) by reflexivity.
    lia.
Qed.

(** [String.index] finds exactly the leftmost occurrence. *)
Lemma index_Some_occurrence (s str : string) (m : nat) :
  String.index 0 s str = Some m ->
  occurrence_at s str (substring 0 m str)
    (substringFrom (m + String.length s) str).
Proof.
  intros Hm. unfold occurrence_at.
  pose proof (index_bound _ _ _ Hm) as Hle.
  rewrite (substring_split str m (String.length s) Hle) at 1.
  now rewrite (index_correct1 _ _ _ _ Hm).
Qed.

Lemma occurrence_substring (s str pre post : string) :
  occurrence_at s str pre post ->
  substring (String.length pre) (String.length s) str = s.
Proof.
  unfold occurrence_at. intros ->.
  replace (String.length pre) with (String.length pre + 0) by lia.
  rewrite substring_skip. apply substring_prefix.
Qed.

Lemma index_None_no_occurrence (s str : string) :
  String.index 0 s str = None -> forall pre post, ~ occurrence_at s str pre post.
Proof.
  intros Hn pre post Hocc. destruct s as [|c s].
  - now rewrite index_empty in Hn.
  - apply (index_correct3 _ (String.length pre) _ _ Hn); [discriminate | lia |].
    eapply occurrence_substring, Hocc.
Qed.

Lemma index_leftmost (s str pre post : string) :
  occurrence_at s str pre post -> leftmost s str pre ->
  String.index 0 s str = Some (String.length pre).
Proof.
  intros Hocc Hleft.
  destruct (String.index 0 s str) as [m|] eqn:Hm.
  - f_equal.
    pose proof (index_Some_occurrence _ _ _ Hm) as Hocc'.
    pose proof (Hleft _ _ Hocc') as Hle.
    pose proof (index_bound _ _ _ Hm) as Hb.
    rewrite length_substring, Nat.sub_0_r in Hle.
    destruct (Nat.lt_ge_cases (String.length pre) m) as [Hlt|Hge]; [|lia].
    exfalso. apply (index_correct2 _ _ _ _ Hm (String.length pre)); [lia | exact Hlt |].
    eapply occurrence_substring, Hocc.
  - exfalso. eapply index_None_no_occurrence; eauto.
Qed.

End Strings.

(** ** Property keys *)

Section Keys.

Lemma ToString_nat_inj (i j : nat) : ToString_nat i = ToString_nat j -> i = j.
Proof.
  unfold ToString_nat. intros Heq.
  apply (f_equal NilEmpty.uint_of_string) in Heq.
  rewrite !NilEmpty.usu in Heq. injection Heq as Heq.
  apply (f_equal Nat.of_uint) in Heq.
  now rewrite !DecimalNat.Unsigned.of_to in Heq.
Qed.

(** A key that does not read as a decimal numeral is no array index. *)
Lemma ToString_nat_numeral (i : nat) (key : string) :
  NilEmpty.uint_of_string key = None -> ToString_nat i <> key.
Proof.
  unfold ToString_nat. intros Hnone Heq.
  apply (f_equal NilEmpty.uint_of_string) in Heq.
  rewrite NilEmpty.usu, Hnone in Heq. discriminate.
Qed.

(** The keys [reduce] writes: lookups elsewhere see the initial object. *)
Lemma reduce_lookup_other (array : list Prim) (i0 : nat) (init : MatchRecord)
    (key : string) :
  (forall j, j < length array -> key <> ToString_nat (i0 + j)) ->
  reduce (fun (map : MatchRecord) g i => <[ToString_nat i := g]> map)
    array i0 init !! key = init !! key.
Proof.
  revert i0 init. induction array as [|g array IH]; intros i0 init Hkey.
  - reflexivity.
  - simpl. rewrite IH.
    + apply lookup_insert_ne. intros Heq.
      apply (Hkey 0); [simpl; lia |]. now rewrite Nat.add_0_r.
    + intros j Hj. replace (S i0 + j) with (i0 + S j) by lia.
      apply Hkey. simpl. lia.
Qed.

(** Element [j] of the array ends up at key [i0 + j]. *)
Lemma reduce_lookup_index (array : list Prim) (i0 : nat) (init : MatchRecord)
    (j : nat) (g : Prim) :
  array !! j = Some g ->
  reduce (fun (map : MatchRecord) g i => <[ToString_nat i := g]> map)
    array i0 init !! ToString_nat (i0 + j) = Some g.
Proof.
  revert i0 init j. induction array as [|g0 array IH]; intros i0 init j Hj.
  - discriminate.
  - destruct j as [|j]; simpl in *.
    + injection Hj as ->. rewrite reduce_lookup_other.
      * rewrite Nat.add_0_r. apply lookup_insert_eq.
      * intros j _ Heq. apply ToString_nat_inj in Heq. lia.
    + replace (i0 + S j) with (S i0 + j) by lia. now apply IH.
Qed.

End Keys.

(** ** The loader over any host *)

Section LoaderFacts.
Context `{RegExpHost}.

Lemma typeOf_String (v : JsValue) :
  typeOf v = "String" <-> exists s, v = JsString s.
Proof.
  split.
  - destruct v as [[| |b|z|s]|r|f| |]; simpl; try discriminate. eauto.
  - now intros [s ->].
Qed.

Lemma typeOf_RegExp (v : JsValue) :
  typeOf v = "RegExp" <-> exists r, v = JsRegExp r.
Proof.
  split.
  - destruct v as [[| |b|z|s]|r|f| |]; simpl; try discriminate. eauto.
  - now intros [r ->].
Qed.

Lemma typeof_string (v : JsValue) :
  typeof v = "string" <-> exists s, v = JsString s.
Proof.
  split.
  - destruct v as [[| |b|z|s]|r|f| |]; simpl; try discriminate. eauto.
  - now intros [s ->].
Qed.

Lemma typeof_function (v : JsValue) :
  typeof v = "function" <-> exists f, v = JsFunction f.
Proof.
  split.
  - destruct v as [[| |b|z|s]|r|f| |]; simpl; try discriminate. eauto.
  - now intros [f ->].
Qed.

(** [getRegex] throws exactly on the values [typeOf] names neither "String"
    nor "RegExp". *)
Lemma getRegex_throws (regex : JsValue) (flags : option string) :
  typeOf regex <> "String" -> typeOf regex <> "RegExp" ->
  getRegex regex flags = Throw (Error regex_message).
Proof.
  destruct regex as [[| |b|z|s]|r|f| |]; simpl; intros Hs Hr;
    try reflexivity; congruence.
Qed.

Lemma getValueOrMatchFn_throws (value : JsValue) :
  typeof value <> "function" -> typeof value <> "string" ->
  getValueOrMatchFn value = Throw (Error value_message).
Proof.
  destruct value as [[| |b|z|s]|r|f| |]; simpl; intros Hf Hs;
    try reflexivity; congruence.
Qed.

Lemma forEach_app (before after : list Stage) (source : string) :
  forEach (before ++ after) source = forEach before source ≫= forEach after.
Proof.
  revert source. induction before as [|stage before IH]; intros source.
  - reflexivity.
  - simpl. destruct (stage_callback source stage) as [source'|e]; simpl.
    + apply IH.
    + reflexivity.
Qed.

(** The invocation seen from one of its stages: the stages before it have
    turned [source0] into [source]. *)
Lemma loader_at_stage (options : LoaderOptions) (before after : list Stage)
    (stage : Stage) (source0 source : string) :
  stages_of options = before ++ stage :: after ->
  forEach before source0 = Ok source ->
  regexReplaceLoader options source0
  = stage_callback source stage ≫= forEach after.
Proof.
  intros Hstages Hbefore. unfold regexReplaceLoader.
  rewrite Hstages, forEach_app, Hbefore. reflexivity.
Qed.

(** The index [scan] reports is one of those it was given. *)
Lemma scan_range (p : Pattern) (f : RegExpFlags) (S : string) (n i j l : nat)
    (caps : list (option string)) :
  scan p f S n i = Some (j, l, caps) -> i <= j < i + n.
Proof.
  revert i. induction n as [|n IH]; intros i; simpl; [discriminate |].
  destruct (matcher p f S i) as [[l' caps']|].
  - intros [= <- _ _]. lia.
  - destruct (sticky f); [discriminate |].
    intros Hscan. apply IH in Hscan. lia.
Qed.

Lemma scan_None (p : Pattern) (f : RegExpFlags) (S : string) (n i : nat) :
  (forall j, i <= j < i + n -> matcher p f S j = None) ->
  scan p f S n i = None.
Proof.
  revert i. induction n as [|n IH]; intros i Hnone; simpl; [reflexivity |].
  rewrite (Hnone i) by lia. destruct (sticky f); [reflexivity |].
  apply IH. intros j Hj. apply Hnone. lia.
Qed.

(** The rounds of the match loop: any two bounds above the number of indices
    left give the same matches, so the bound [RegExpReplace] passes is never
    the reason the loop ends. *)
Lemma collect_rounds (S : string) (n m : nat) (R : RegExp) :
  Datatypes.S (String.length S) - lastIndex R < n ->
  Datatypes.S (String.length S) - lastIndex R < m ->
  collect n R S = collect m R S.
Proof.
  revert m R. induction n as [|n IH]; intros m R Hn Hm; [lia |].
  destruct m as [|m]; [lia |]. simpl.
  unfold RegExpBuiltinExec.
  destruct (global (re_flags R)) eqn:Hg; simpl.
  - destruct (scan _ _ _ _ _) as [[[i l] caps]|] eqn:Hscan; [|reflexivity].
    f_equal. apply scan_range in Hscan.
    assert (Hlen : String.length (substring i l S) <= l).
    { rewrite length_substring. lia. }
    simpl.
    destruct (String.eqb_spec (substring i l S) EmptyString) as [Hempty|Hne].
    + apply IH; simpl; lia.
    + assert (l <> 0).
      { intros ->. apply Hne.
        apply length_zero_iff_nil. rewrite length_substring. lia. }
      apply IH; simpl; lia.
  - destruct (scan _ _ _ _ _) as [[[i l] caps]|]; reflexivity.
Qed.

End LoaderFacts.

Section Stages.
Context `{RegExpHost}.

(** However many more rounds the match loop of [RegExpReplace] were given,
    it would collect the same matches. *)
Lemma RegExpReplace_rounds (R : RegExp) (S : string) (k : nat) :
  let R0 :=
    if global (re_flags R) then mkRegExp (re_source R) (re_flags R) 0 else R in
  collect (String.length S + 2 + k) R0 S = collect (String.length S + 2) R0 S.
Proof. intros R0. apply collect_rounds; lia. Qed.

(** C4.  An enabled stage whose [regex] is neither a string nor a RegExp
    object makes the invocation throw the error about option "regex", whose
    message starts with the loader's name: whatever the stages before it
    produced is dropped, the stage's [value] is not looked at and no later
    stage runs, so no text is returned and nothing is replaced by that
    stage. *)
Theorem invalid_regex_type_throws (options : LoaderOptions)
    (before after : list Stage) (stage : Stage) (source0 source : string) :
  stages_of options = before ++ stage :: after ->
  forEach before source0 = Ok source ->
  ToBoolean (enable stage) = true ->
  typeOf (regex stage) <> "String" ->
  typeOf (regex stage) <> "RegExp" ->
  regexReplaceLoader options source0 = Throw (Error regex_message)
  /\ exists rest, regex_message = NAME +:+ rest.
Proof.
  intros Hstages Hbefore Henable Hs Hr. split.
  - rewrite (loader_at_stage _ _ _ _ _ _ Hstages Hbefore).
    unfold stage_callback. rewrite Henable.
    now rewrite (getRegex_throws _ _ Hs Hr).
  - eexists. reflexivity.
Qed.

(** C5.  An enabled stage whose [regex] resolves ([getRegex] returns) and
    whose [value] is neither a string nor a function makes the invocation
    throw the error about option "value", whose message starts with the
    loader's name; no text is returned, so for a single-stage configuration
    nothing is replaced. *)
Theorem invalid_value_type_throws (options : LoaderOptions)
    (before after : list Stage) (stage : Stage) (source0 source : string)
    (resolved : SearchValue) :
  stages_of options = before ++ stage :: after ->
  forEach before source0 = Ok source ->
  ToBoolean (enable stage) = true ->
  getRegex (regex stage) (flags stage) = Ok resolved ->
  typeof (value stage) <> "string" ->
  typeof (value stage) <> "function" ->
  regexReplaceLoader options source0 = Throw (Error value_message)
  /\ exists rest, value_message = NAME +:+ rest.
Proof.
  intros Hstages Hbefore Henable Hregex Hs Hf. split.
  - rewrite (loader_at_stage _ _ _ _ _ _ Hstages Hbefore).
    unfold stage_callback, replace. rewrite Henable, Hregex. simpl.
    now rewrite (getValueOrMatchFn_throws _ Hf Hs).
  - eexists. reflexivity.
Qed.

(** C6.  The stages run one after the other in the order of the array, each
    on the text the previous one returned: running [before ++ after] is
    running [before] and then [after] on its result, and the first stage runs
    first.  With [{regex: "f", value: "b"}] then [{regex: "b", value: "c"}],
    "foo" becomes "coo". *)
Theorem stages_run_in_sequence :
  (forall (t : Stage) (before after : list Stage) (source : string),
     regexReplaceLoader (mkOptions t (Some (before ++ after))) source
     = regexReplaceLoader (mkOptions t (Some before)) source
         ≫= regexReplaceLoader (mkOptions t (Some after)))
  /\ (forall (t stage : Stage) (rest : list Stage) (source : string),
        regexReplaceLoader (mkOptions t (Some (stage :: rest))) source
        = stage_callback source stage
            ≫= regexReplaceLoader (mkOptions t (Some rest)))
  /\ (forall t : Stage,
        regexReplaceLoader
          (mkOptions t
             (Some [mkStage (JsString "f") None (JsString "b") (JsBool true);
                    mkStage (JsString "b") None (JsString "c") (JsBool true)]))
          "foo"
        = Ok "coo").
Proof.
  split; [|split].
  - intros t before after source. apply forEach_app.
  - reflexivity.
  - reflexivity.
Qed.

(** C7.  [getRegex] returns a string pattern as it is, whatever the flags;
    for a RegExp object and flags the host accepts it returns a new RegExp
    object with the same pattern source and the given flags (the object's own
    flags when none are given), its [lastIndex] at 0. *)
Theorem getRegex_resolution :
  (forall (s : string) (flags : option string),
     getRegex (JsString s) flags = Ok (SVString s))
  /\ (forall (r : RegExp) (F : string) (f : RegExpFlags),
        parse_flags F = Some f ->
        pattern_valid (re_source r) f = true ->
        getRegex (JsRegExp r) (Some F)
        = Ok (SVRegExp (mkRegExp (re_source r) f 0)))
  /\ (forall r : RegExp,
        getRegex (JsRegExp r) None
        = Ok (SVRegExp (mkRegExp (re_source r) (re_flags r) 0))).
Proof.
  split; [|split].
  - reflexivity.
  - intros r F f HF Hvalid. simpl. unfold RegExp_new.
    now rewrite HF, Hvalid.
  - reflexivity.
Qed.

(** C9.  A stage whose [enable] is falsy returns the text it was given, and
    the invocation is the one without that stage; a single configuration
    [{regex: "a", value: "Z", enable: false}] returns "abc" for "abc". *)
Theorem disabled_stage_skipped :
  (forall (options : LoaderOptions) (before after : list Stage)
          (stage : Stage) (source0 : string),
     stages_of options = before ++ stage :: after ->
     ToBoolean (enable stage) = false ->
     (forall source, stage_callback source stage = Ok source)
     /\ regexReplaceLoader options source0 = forEach (before ++ after) source0)
  /\ regexReplaceLoader
       (mkOptions (mkStage (JsString "a") None (JsString "Z") (JsBool false))
          None) "abc"
     = Ok "abc".
Proof.
  split; [|reflexivity].
  intros options before after stage source0 Hstages Hdisabled.
  assert (Hskip : forall source, stage_callback source stage = Ok source).
  { intros source. unfold stage_callback. now rewrite Hdisabled. }
  split; [exact Hskip |].
  unfold regexReplaceLoader. rewrite Hstages, !forEach_app.
  destruct (forEach before source0) as [source|e]; simpl; [|reflexivity].
  now rewrite Hskip.
Qed.

(** C10.  The [regex], [flags] and [value] of a stage whose [enable] is
    falsy have no effect on the invocation: two pipelines that differ only in
    these fields of such a stage give the same result, and a single
    configuration with a falsy [enable] returns its input whatever [regex]
    and [value] are, numbers included. *)
Theorem disabled_stage_not_inspected :
  (forall (t : Stage) (before after : list Stage) (e : JsValue)
          (r1 r2 v1 v2 : JsValue) (f1 f2 : option string) (source : string),
     ToBoolean e = false ->
     regexReplaceLoader
       (mkOptions t (Some (before ++ mkStage r1 f1 v1 e :: after))) source
     = regexReplaceLoader
         (mkOptions t (Some (before ++ mkStage r2 f2 v2 e :: after))) source)
  /\ (forall (r v e : JsValue) (f : option string) (source : string),
        ToBoolean e = false ->
        regexReplaceLoader (mkOptions (mkStage r f v e) None) source
        = Ok source)
  /\ regexReplaceLoader
       (mkOptions (mkStage (JsNumber 42) None (JsNumber 42) (JsBool false))
          None) "abc"
     = Ok "abc".
Proof.
  split; [|split; [|reflexivity]].
  - intros t before after e r1 r2 v1 v2 f1 f2 source He.
    unfold regexReplaceLoader, stages_of. cbn [stages].
    rewrite !forEach_app.
    destruct (forEach before source) as [source'|err]; simpl; [|reflexivity].
    unfold stage_callback. cbn [enable]. now rewrite He.
  - intros r v e f source He.
    unfold regexReplaceLoader, stages_of. cbn [stages top forEach].
    unfold stage_callback. cbn [enable]. now rewrite He.
Qed.

End Stages.

Section Replacement.
Context `{RegExpHost}.

(** [String.prototype.replace] on a string search value, read against the
    occurrences of that string. *)
Lemma replaceString_no_occurrence (str s : string) (rv : ReplaceValue) :
  (forall pre post, ~ occurrence_at s str pre post) ->
  replaceString str s rv = str.
Proof.
  intros Hnone. unfold replaceString.
  destruct (String.index 0 s str) as [m|] eqn:Hm; [|reflexivity].
  exfalso. eapply Hnone, index_Some_occurrence, Hm.
Qed.

Lemma replaceString_leftmost (str s pre post : string) (rv : ReplaceValue) :
  occurrence_at s str pre post -> leftmost s str pre ->
  replaceString str s rv
  = pre +:+ replacement_for rv s [] (String.length pre) str +:+ post.
Proof.
  intros Hocc Hleft. unfold replaceString.
  rewrite (index_leftmost _ _ _ _ Hocc Hleft).
  unfold occurrence_at in Hocc.
  assert (Hpre : substring 0 (String.length pre) str = pre).
  { rewrite Hocc. apply substring_prefix. }
  assert (Hpost :
    substringFrom (String.length pre + String.length s) str = post).
  { rewrite Hocc, <- append_assoc, <- length_append.
    apply substringFrom_skip. }
  cbv zeta. now rewrite Hpre, Hpost.
Qed.

(** Nothing to replace: [String.prototype.replace] returns its receiver. *)
Lemma String_prototype_replace_no_occurrence (str : string)
    (searchValue : SearchValue) (rv : ReplaceValue) :
  ~ occurs searchValue str ->
  String_prototype_replace str searchValue rv = str.
Proof.
  destruct searchValue as [s|R]; simpl; intros Hnone.
  - apply replaceString_no_occurrence. intros pre post Hocc.
    apply Hnone. now exists pre, post.
  - unfold RegExpReplace.
    assert (Hscan : forall i,
      scan (re_source R) (re_flags R) str
        (Datatypes.S (String.length str) - i) i = None).
    { intros i. apply scan_None. intros j Hj.
      destruct (matcher (re_source R) (re_flags R) str j) eqn:Hj'; [|reflexivity].
      exfalso. apply Hnone. exists j. split; [lia |]. rewrite Hj'. eauto. }
    replace (String.length str + 2) with (Datatypes.S (String.length str + 1))
      by lia.
    assert (Hcollect : forall R' n,
      re_source R' = re_source R -> re_flags R' = re_flags R ->
      collect (Datatypes.S n) R' str = []).
    { intros R' n Hsrc Hfl. simpl. unfold RegExpBuiltinExec.
      now rewrite Hsrc, Hfl, Hscan. }
    rewrite Hcollect; [| now destruct (global (re_flags R))
                       | now destruct (global (re_flags R))].
    simpl. destruct str as [|c str]; [reflexivity |].
    simpl. rewrite append_nil. apply (substringFrom_0 (String c str)).
Qed.

(** C1, as the code has it.  An enabled stage whose [regex] is a string
    without syntax characters, given without [flags], and whose [value] is a
    string or a function, replaces the leftmost occurrence of that string and
    no other: a text without occurrence goes through unchanged, and otherwise
    the text before and after the leftmost occurrence is kept as it is, later
    occurrences included.  With [{regex: "1", value: "#"}], "a1b1c1" becomes
    "a#b1c1".  Strings with syntax characters and stages with [flags] are
    left out: there the search for the string as it is written, which
    [getRegex] leads to, and the compiled pattern its documentation announces
    differ. *)
Theorem plain_string_pattern_replaces_leftmost :
  (forall (options : LoaderOptions) (before after : list Stage)
          (stage : Stage) (s : string) (rv : ReplaceValue)
          (source0 source : string),
     stages_of options = before ++ stage :: after ->
     forEach before source0 = Ok source ->
     ToBoolean (enable stage) = true ->
     regex stage = JsString s ->
     plain_text s = true ->
     flags stage = None ->
     getValueOrMatchFn (value stage) = Ok rv ->
     ((forall pre post, ~ occurrence_at s source pre post) ->
      regexReplaceLoader options source0 = forEach after source)
     /\ (forall pre post,
           occurrence_at s source pre post -> leftmost s source pre ->
           regexReplaceLoader options source0
           = forEach after
               (pre +:+ replacement_for rv s [] (String.length pre) source
                    +:+ post)))
  /\ regexReplaceLoader
       (mkOptions (mkStage (JsString "1") None (JsString "#") (JsBool true))
          None) "a1b1c1"
     = Ok "a#b1c1".
Proof.
  split; [|reflexivity].
  intros options before after stage s rv source0 source
    Hstages Hbefore Henable Hregex _ _ Hvalue.
  rewrite (loader_at_stage _ _ _ _ _ _ Hstages Hbefore).
  unfold stage_callback, replace. rewrite Henable, Hregex, Hvalue. simpl.
  split.
  - intros Hnone. now rewrite replaceString_no_occurrence.
  - intros pre post Hocc Hleft. now rewrite (replaceString_leftmost _ _ pre post).
Qed.

(** C2, as the code has it.  A configuration without a [stages] array is
    one stage under the same test of [enable] as any other: when [enable] is
    falsy, and so when it is absent, the text is returned unchanged; when it
    is truthy, the substitution of the stage is performed. *)
Theorem single_stage_gated_by_enable (stage : Stage) (source : string) :
  (ToBoolean (enable stage) = false ->
   regexReplaceLoader (mkOptions stage None) source = Ok source)
  /\ (enable stage = JsUndefined ->
      regexReplaceLoader (mkOptions stage None) source = Ok source)
  /\ (ToBoolean (enable stage) = true ->
      forall (resolved : SearchValue) (rv : ReplaceValue),
        getRegex (regex stage) (flags stage) = Ok resolved ->
        getValueOrMatchFn (value stage) = Ok rv ->
        regexReplaceLoader (mkOptions stage None) source
        = Ok (String_prototype_replace source resolved rv)).
Proof.
  unfold regexReplaceLoader, stages_of. cbn [stages top forEach].
  unfold stage_callback, replace.
  split; [|split].
  - now intros ->.
  - now intros ->.
  - intros -> resolved rv -> ->. reflexivity.
Qed.


End Replacement.

(** ** The match function *)

Section MatchFunction.

Lemma reduce_keys (array : list Prim) (i0 : nat) (init : MatchRecord)
    (key : string) :
  is_Some
    (reduce (fun (map : MatchRecord) g i => <[ToString_nat i := g]> map)
       array i0 init !! key) ->
  is_Some (init !! key)
  \/ exists j, j < length array /\ key = ToString_nat (i0 + j).
Proof.
  revert i0 init. induction array as [|g array IH]; intros i0 init Hsome.
  - now left.
  - simpl in Hsome. apply IH in Hsome as [Hsome|(j & Hj & ->)].
    + destruct (decide (ToString_nat i0 = key)) as [<-|Hne].
      * right. exists 0. split; [simpl; lia | now rewrite Nat.add_0_r].
      * left. now rewrite lookup_insert_ne in Hsome.
    + right. exists (S j). split; [simpl; lia | f_equal; lia].
Qed.

(** Called with the items of a match, then an offset and an input,
    [getMatchFn valueFn] calls [valueFn] once, with an object that has the
    items at the keys [0], [1], ..., the offset at [index], the input at
    [input], and no other key. *)
Lemma getMatchFn_record (valueFn : MatchRecord -> string)
    (items : list Prim) (offset input : Prim) :
  exists record : MatchRecord,
    getMatchFn valueFn (items ++ [offset; input]) = valueFn record
    /\ (forall i, record !! ToString_nat i = items !! i)
    /\ record !! "index" = Some offset
    /\ record !! "input" = Some input
    /\ (forall key, is_Some (record !! key) ->
          key = "index" \/ key = "input"
          \/ exists i, i < length items /\ key = ToString_nat i).
Proof.
  unfold getMatchFn. eexists. split; [reflexivity |].
  assert (Htake :
    take (length (items ++ [offset; input]) - 2) (items ++ [offset; input])
    = items).
  { rewrite length_app. simpl.
    replace (length items + 2 - 2) with (length items) by lia.
    now rewrite take_app_length. }
  assert (Hindex :
    element (items ++ [offset; input])
      (Z.of_nat (length (items ++ [offset; input])) - 2) = offset).
  { unfold element. rewrite length_app. simpl.
    destruct (Z.ltb_spec (Z.of_nat (length items + 2) - 2) 0) as [?|_]; [lia |].
    replace (Z.to_nat (Z.of_nat (length items + 2) - 2)) with (length items + 0)
      by lia.
    now rewrite lookup_app_r, Nat.add_0_r, Nat.sub_diag by lia. }
  assert (Hinput :
    element (items ++ [offset; input])
      (Z.of_nat (length (items ++ [offset; input])) - 1) = input).
  { unfold element. rewrite length_app. simpl.
    destruct (Z.ltb_spec (Z.of_nat (length items + 2) - 1) 0) as [?|_]; [lia |].
    replace (Z.to_nat (Z.of_nat (length items + 2) - 1)) with (length items + 1)
      by lia.
    rewrite lookup_app_r by lia.
    now replace (length items + 1 - length items) with 1 by lia. }
  rewrite Htake, Hindex, Hinput.
  assert (Hnamed : forall i key,
    NilEmpty.uint_of_string key = None -> key <> ToString_nat i).
  { intros i key Hkey Heq. now apply (ToString_nat_numeral i key). }
  repeat split.
  - intros i. destruct (items !! i) as [g|] eqn:Hi.
    + now apply (reduce_lookup_index items 0).
    + apply lookup_ge_None in Hi. rewrite reduce_lookup_other.
      * rewrite !lookup_insert_ne, lookup_empty;
          [reflexivity | |]; apply Hnamed; reflexivity.
      * intros j Hj Heq. apply ToString_nat_inj in Heq. lia.
  - rewrite reduce_lookup_other; [apply lookup_insert_eq |].
    intros j _. now apply Hnamed.
  - rewrite reduce_lookup_other.
    + rewrite lookup_insert_ne by discriminate. apply lookup_insert_eq.
    + intros j _. now apply Hnamed.
  - intros key Hsome. apply reduce_keys in Hsome as [Hsome|(j & Hj & ->)].
    + destruct (decide (key = "index")) as [->|Hne1]; [now left |].
      destruct (decide (key = "input")) as [->|Hne2]; [now right; left |].
      rewrite !lookup_insert_ne, lookup_empty in Hsome by congruence.
      now destruct Hsome.
    + right; right. now exists j.
Qed.

End MatchFunction.

(** ** Where errors come from *)

Section Errors.
Context `{RegExpHost}.

Lemma forEach_Throw_inv (stages : list Stage) (source : string)
    (e : Exception) :
  forEach stages source = Throw e ->
  exists before stage after source',
    stages = before ++ stage :: after
    /\ forEach before source = Ok source'
    /\ stage_callback source' stage = Throw e.
Proof.
  revert source. induction stages as [|stage rest IH]; intros source Hthrow.
  - discriminate.
  - simpl in Hthrow.
    destruct (stage_callback source stage) as [source1|e1] eqn:Hstage.
    + simpl in Hthrow.
      destruct (IH _ Hthrow) as (before & st & after & src & -> & Hb & Hs).
      exists (stage :: before), st, after, src. repeat split; [|exact Hs].
      simpl. now rewrite Hstage.
    + simpl in Hthrow. injection Hthrow as ->.
      exists [], stage, rest, source. now repeat split.
Qed.

(** X1.  The invocation throws [e] exactly when one of its stages, given
    the text the stages before it returned, throws [e]: the error is that of
    the first stage that fails, and the stages after it play no part. *)
Theorem throws_at_first_failing_stage (options : LoaderOptions)
    (source0 : string) (e : Exception) :
  regexReplaceLoader options source0 = Throw e <->
  exists before stage after source,
    stages_of options = before ++ stage :: after
    /\ forEach before source0 = Ok source
    /\ stage_callback source stage = Throw e.
Proof.
  split.
  - apply forEach_Throw_inv.
  - intros (before & stage & after & source & Hstages & Hbefore & Hstage).
    rewrite (loader_at_stage _ _ _ _ _ _ Hstages Hbefore).
    now rewrite Hstage.
Qed.

(** A stage of the model throws [e] exactly for one of the reasons of
    [throw_reason]. *)
Lemma stage_callback_Throw (source : string) (stage : Stage) (e : Exception) :
  stage_callback source stage = Throw e <-> throw_reason stage e.
Proof.
  unfold throw_reason.
  destruct stage as [rx fl v en]. unfold stage_callback, replace.
  cbn [regex flags value enable].
  destruct (ToBoolean en); [|split; [discriminate | now intros [? _]]].
  split.
  - intros Hthrow. split; [reflexivity |].
    destruct (getRegex rx fl) as [resolved|e1] eqn:Hrx.
    + right; right. simpl in Hthrow.
      destruct v as [[| |b|z|s]|r|f| |]; simpl in Hthrow;
        try discriminate Hthrow; injection Hthrow as <-;
        (split; [reflexivity |]); (split; [eauto |]);
        split; simpl; discriminate.
    + simpl in Hthrow. injection Hthrow as ->.
      destruct rx as [[| |b|z|s]|r|f| |]; simpl in Hrx;
        try discriminate Hrx;
        try (injection Hrx as <-; left; repeat split; simpl; discriminate).
      right; left. unfold RegExp_new in Hrx.
      destruct fl as [F|]; [|discriminate Hrx].
      destruct (parse_flags F) as [f|] eqn:HF.
      * destruct (pattern_valid (re_source r) f) eqn:Hvalid;
          [discriminate Hrx |].
        simpl in Hrx. injection Hrx as <-.
        split; [reflexivity |]. exists r, F. repeat split. right. eauto.
      * simpl in Hrx. injection Hrx as <-.
        split; [reflexivity |]. exists r, F. repeat split. now left.
  - intros [_ [(-> & Hs & Hr) | [(-> & r & F & -> & -> & Hflags)
                                | (-> & [resolved Hrx] & Hs & Hf)]]].
    + now rewrite (getRegex_throws _ _ Hs Hr).
    + simpl. unfold RegExp_new.
      destruct Hflags as [-> | (f & -> & ->)]; reflexivity.
    + rewrite Hrx. simpl. now rewrite (getValueOrMatchFn_throws _ Hf Hs).
Qed.

(** X2.  Each reason of [throw_reason] makes an enabled stage throw its
    error, whatever the text: a [regex] that is neither a string nor a RegExp
    object, then [flags] the host refuses for a RegExp object, then a [value]
    that is neither a string nor a function.  And a stage whose [value] is no
    function throws for no other reason: it throws only when it is enabled,
    and then one of the three holds. *)
Theorem stage_throw_classified (source : string) (stage : Stage)
    (e : Exception) :
  (throw_reason stage e -> stage_callback source stage = Throw e)
  /\ (typeof (value stage) <> "function" ->
      stage_callback source stage = Throw e ->
      throw_reason stage e).
Proof.
  split.
  - apply stage_callback_Throw.
  - intros _. apply stage_callback_Throw.
Qed.

Lemma stage_Throw_any_source (source source' : string) (stage : Stage)
    (e : Exception) :
  stage_callback source stage = Throw e ->
  stage_callback source' stage = Throw e.
Proof.
  intros Hthrow. apply stage_callback_Throw.
  now apply stage_callback_Throw in Hthrow.
Qed.

Lemma stage_Ok_any_source (source source' out : string) (stage : Stage) :
  stage_callback source stage = Ok out ->
  exists out', stage_callback source' stage = Ok out'.
Proof.
  intros Hok. destruct (stage_callback source' stage) as [out'|e] eqn:Hs.
  - eauto.
  - apply (stage_Throw_any_source _ source) in Hs. congruence.
Qed.

(** X3.  When no enabled stage has a function as [value], whether an
    invocation throws, and what, is decided by the options alone: if it
    throws [e] for one text it throws [e] for every text. *)
Theorem throw_independent_of_source (options : LoaderOptions)
    (source source' : string) (e : Exception) :
  calls_no_function options ->
  regexReplaceLoader options source = Throw e ->
  regexReplaceLoader options source' = Throw e.
Proof.
  intros _. unfold regexReplaceLoader. revert source source'.
  induction (stages_of options) as [|stage rest IH]; intros source source'.
  - discriminate.
  - simpl.
    destruct (stage_callback source stage) as [out|e1] eqn:Hstage.
    + destruct (stage_Ok_any_source _ source' _ _ Hstage) as [out' ->].
      simpl. apply IH.
    + rewrite (stage_Throw_any_source _ source' _ _ Hstage). now simpl.
Qed.

(** X4.  An invocation whose enabled stages all have a string, or a RegExp
    object without [flags], as [regex] and a string as [value] returns a
    text, whatever the source. *)
Theorem string_valued_stages_return (options : LoaderOptions)
    (source : string) :
  Forall (fun stage => ToBoolean (enable stage) = true -> string_valued stage)
         (stages_of options) ->
  exists out, regexReplaceLoader options source = Ok out.
Proof.
  unfold regexReplaceLoader. revert source.
  induction (stages_of options) as [|stage rest IH]; intros source Hall.
  - now exists source.
  - inversion Hall as [|? ? Hstage Hrest]; subst. simpl.
    assert (Hstep : exists out, stage_callback source stage = Ok out).
    { unfold stage_callback, replace.
      destruct (ToBoolean (enable stage)); [|eauto].
      destruct (Hstage eq_refl) as [Hregex Hvalue].
      assert (Hrx : exists resolved,
                getRegex (regex stage) (flags stage) = Ok resolved).
      { destruct Hregex as [Hs | [Hr Hfl]].
        - apply typeOf_String in Hs as [s ->]. simpl. eauto.
        - apply typeOf_RegExp in Hr as [r ->]. rewrite Hfl. simpl. eauto. }
      destruct Hrx as [resolved ->]. simpl.
      apply typeof_string in Hvalue as [s ->]. simpl. eauto. }
    destruct Hstep as [out ->]. simpl. now apply IH.
Qed.

End Errors.

(** ** [typeOf], flags and the state of a RegExp object *)

Section Resolution.
Context `{RegExpHost}.

Lemma slice_object_tag (tag : string) :
  slice ("[object " +:+ tag +:+ "]") 8 (-1) = tag.
Proof.
  unfold slice. rewrite !length_append.
  change (String.length "[object ") with 8. change (String.length "]") with 1.
  change (-1 <? 0)%Z with true. change (8 <? 0)%Z with false. cbv iota.
  replace (Z.to_nat (Z.min 8 (Z.of_nat (8 + (String.length tag + 1)))))
    with (String.length "[object " + 0) by (simpl; lia).
  replace (Z.to_nat _) with (String.length tag) by lia.
  rewrite substring_skip. apply substring_prefix.
Qed.

(** X5.  [typeOf] gives the class name of every value: the text
    [Object.prototype.toString] returns is ["[object "], the name and ["]"],
    and [slice(8, -1)] keeps exactly the name, whatever its length. *)
Theorem typeOf_sliced_class_name :
  (forall object : JsValue,
     Object_prototype_toString object = "[object " +:+ typeOf object +:+ "]"
     /\ typeOf_sliced object = typeOf object)
  /\ (forall tag : string, slice ("[object " +:+ tag +:+ "]") 8 (-1) = tag).
Proof.
  split; [|exact slice_object_tag].
  intros object.
  assert (Htag :
    Object_prototype_toString object = "[object " +:+ typeOf object +:+ "]").
  { now destruct object as [[| |b|z|s]|r|f| |]. }
  split; [exact Htag |].
  unfold typeOf_sliced. rewrite Htag. apply slice_object_tag.
Qed.

Lemma add_flag_unknown (c : ascii) (f : RegExpFlags) :
  is_flag_character c = false -> add_flag c f = None.
Proof.
  unfold is_flag_character. simpl. intros Hc.
  repeat (apply orb_false_elim in Hc as [? Hc]).
  unfold add_flag. destruct f.
  repeat match goal with
         | Heq : (c =? _)%char = false |- _ => rewrite Heq; clear Heq
         end.
  reflexivity.
Qed.

Lemma add_flag_repeated (c : ascii) (f : RegExpFlags) :
  flag_set c f = true -> add_flag c f = None.
Proof.
  unfold flag_set, add_flag. destruct f. simpl.
  repeat (destruct (c =? _)%char; [now intros -> |]).
  discriminate.
Qed.

Lemma add_flag_sets (c : ascii) (f f' : RegExpFlags) :
  add_flag c f = Some f' ->
  flag_set c f' = true /\ forall d, flag_set d f = true -> flag_set d f' = true.
Proof.
  assert (Hkeep : forall d (f1 f2 : RegExpFlags),
    (hasIndices f1 = true -> hasIndices f2 = true) ->
    (global f1 = true -> global f2 = true) ->
    (ignoreCase f1 = true -> ignoreCase f2 = true) ->
    (multiline f1 = true -> multiline f2 = true) ->
    (dotAll f1 = true -> dotAll f2 = true) ->
    (unicode f1 = true -> unicode f2 = true) ->
    (unicodeSets f1 = true -> unicodeSets f2 = true) ->
    (sticky f1 = true -> sticky f2 = true) ->
    flag_set d f1 = true -> flag_set d f2 = true).
  { intros d f1 f2 ? ? ? ? ? ? ? ?. unfold flag_set.
    repeat (destruct (d =? _)%char; [assumption |]). now intros. }
  unfold add_flag. destruct f as [d0 g0 i0 m0 s0 u0 v0 y0].
  repeat (destruct (c =? _)%char eqn:Heq;
          [ apply Ascii.eqb_eq in Heq; subst c;
            match goal with
            | |- (if ?b then _ else _) = _ -> _ => destruct b
            end; [now intros |];
            intros [= <-]; split; [reflexivity |];
            intros d; apply Hkeep; simpl; auto
          | clear Heq ]).
  now intros.
Qed.

Lemma parse_flags_unknown (c : ascii) (F : string) (acc : RegExpFlags) :
  contains c F = true -> is_flag_character c = false ->
  parse_flags_from F acc = None.
Proof.
  intros Hin Hc. revert acc. induction F as [|c' F IH]; intros acc.
  - discriminate.
  - simpl in Hin. simpl.
    destruct (Ascii.eqb_spec c c') as [<-|_].
    + now rewrite add_flag_unknown.
    + destruct (add_flag c' acc); [now apply IH | reflexivity].
Qed.

Lemma parse_flags_already_set (c : ascii) (F : string) (acc : RegExpFlags) :
  contains c F = true -> flag_set c acc = true ->
  parse_flags_from F acc = None.
Proof.
  revert acc. induction F as [|c' F IH]; intros acc Hin Hset.
  - discriminate.
  - simpl in Hin. simpl.
    destruct (Ascii.eqb_spec c c') as [<-|_].
    + now rewrite add_flag_repeated.
    + destruct (add_flag c' acc) as [acc'|] eqn:Hadd; [|reflexivity].
      apply IH; [exact Hin |].
      exact (proj2 (add_flag_sets _ _ _ Hadd) c Hset).
Qed.

Lemma parse_flags_repeated (a b : string) (c : ascii) (acc : RegExpFlags) :
  contains c b = true ->
  parse_flags_from (a +:+ String c b) acc = None.
Proof.
  intros Hin. revert acc. induction a as [|x a IH]; intros acc.
  - rewrite append_nil. simpl.
    destruct (add_flag c acc) as [acc'|] eqn:Hadd; [|reflexivity].
    apply (parse_flags_already_set c); [exact Hin |].
    exact (proj1 (add_flag_sets _ _ _ Hadd)).
  - rewrite append_cons. simpl.
    destruct (add_flag x acc); [apply IH | reflexivity].
Qed.

(** X6.  An enabled stage whose [regex] is a RegExp object and whose
    [flags] contain a character that is no flag, or the same character
    twice, makes the invocation throw a SyntaxError, before [value] is looked
    at and whatever the text. *)
Theorem bad_flags_throw_SyntaxError (options : LoaderOptions)
    (before after : list Stage) (stage : Stage) (r : RegExp) (F : string)
    (source0 source : string) :
  stages_of options = before ++ stage :: after ->
  forEach before source0 = Ok source ->
  ToBoolean (enable stage) = true ->
  regex stage = JsRegExp r ->
  flags stage = Some F ->
  (exists c, contains c F = true /\ is_flag_character c = false)
  \/ (exists a c b, F = a +:+ String c b /\ contains c b = true) ->
  regexReplaceLoader options source0 = Throw SyntaxError.
Proof.
  intros Hstages Hbefore Henable Hregex Hflags Hbad.
  rewrite (loader_at_stage _ _ _ _ _ _ Hstages Hbefore).
  enough (Hstage : stage_callback source stage = Throw SyntaxError)
    by now rewrite Hstage.
  apply stage_callback_Throw. split; [exact Henable |].
  right; left. split; [reflexivity |].
  exists r, F. repeat split; try assumption. left.
  destruct Hbad as [(c & Hin & Hc) | (a & c & b & -> & Hin)].
  - now apply (parse_flags_unknown c).
  - now apply parse_flags_repeated.
Qed.

(** X7.  The loader reads the pattern source of a RegExp object, and its
    flags when no [flags] are given, and nothing else of it: with [flags]
    given, two objects with the same source give the same result whatever
    their own flags and [lastIndex]; without, two objects with the same
    source and flags do, whatever their [lastIndex]. *)
Theorem regexp_state_not_read (p : Pattern) (f1 f2 : RegExpFlags)
    (n1 n2 : nat) (F : string) (v e : JsValue) (source : string) :
  stage_callback source (mkStage (JsRegExp (mkRegExp p f1 n1)) (Some F) v e)
  = stage_callback source (mkStage (JsRegExp (mkRegExp p f2 n2)) (Some F) v e)
  /\ stage_callback source (mkStage (JsRegExp (mkRegExp p f1 n1)) None v e)
     = stage_callback source (mkStage (JsRegExp (mkRegExp p f1 n2)) None v e).
Proof. split; reflexivity. Qed.

End Resolution.

(** ** What a stage puts in place of a match *)

Section Templates.
Context `{RegExpHost}.

Lemma is_digit_not (d c : ascii) :
  is_digit d = true -> is_digit c = false -> (d =? c)%char = false.
Proof.
  intros Hd Hc. destruct (Ascii.eqb_spec d c) as [->|]; [congruence | reflexivity].
Qed.

Lemma capture_ref_no_captures (index : nat) (ref : string) :
  capture_ref [] index ref = ref.
Proof.
  unfold capture_ref. simpl.
  destruct index as [|index]; reflexivity.
Qed.

(** Without captures, a template whose only references are [$n] and [$nn]
    stands for itself. *)
Lemma GetSubstitution_group_references (matched str : string) (position : nat)
    (template : string) :
  group_references_only template = true ->
  GetSubstitution matched str position [] template = template.
Proof.
  remember (String.length template) as n eqn:Hn.
  assert (Hle : String.length template <= n) by lia. clear Hn.
  revert template Hle. induction n as [|n IH]; intros template Hle Hgro.
  - destruct template; [reflexivity | simpl in Hle; lia].
  - destruct template as [|c rest]; [reflexivity |].
    simpl in Hle, Hgro. simpl.
    destruct (c =? "$")%char eqn:Hc; simpl.
    + apply Ascii.eqb_eq in Hc. subst c.
      destruct rest as [|d rest']; [discriminate Hgro |].
      apply andb_prop in Hgro as [Hd Hrest'].
      rewrite !(is_digit_not d) by (exact Hd || reflexivity).
      rewrite Hd, capture_ref_no_captures.
      assert (Hone : GetSubstitution matched str position [] rest' = rest').
      { apply IH; [simpl in Hle; lia | exact Hrest']. }
      destruct rest' as [|c2 rest2]; [reflexivity |].
      destruct (is_digit c2 && _) eqn:Htwo.
      * apply andb_prop in Htwo as [Hc2 _].
        rewrite capture_ref_no_captures, !append_cons, append_nil.
        do 3 f_equal. apply IH; [simpl in Hle; lia |].
        simpl in Hrest'. now rewrite (is_digit_not c2 "$" Hc2 eq_refl) in Hrest'.
      * rewrite Hone. reflexivity.
    + f_equal. apply IH; [lia | exact Hgro].
Qed.

(** A template without [$] stands for itself, whatever the captures. *)
Lemma GetSubstitution_no_dollar (matched str : string) (position : nat)
    (captures : list (option string)) (template : string) :
  no_dollar template = true ->
  GetSubstitution matched str position captures template = template.
Proof.
  unfold no_dollar. induction template as [|c rest IH]; [reflexivity |].
  intros Hnd.
  change (contains "$" (String c rest))
    with (("$" =? c)%char || contains "$" rest) in Hnd.
  rewrite negb_orb in Hnd. apply andb_prop in Hnd as [Hc Hrest].
  apply negb_true_iff in Hc. rewrite Ascii.eqb_sym in Hc.
  simpl. rewrite Hc. simpl. now rewrite IH.
Qed.

Lemma stage_string_regex (source s : string) (stage : Stage)
    (rv : ReplaceValue) :
  ToBoolean (enable stage) = true ->
  regex stage = JsString s ->
  getValueOrMatchFn (value stage) = Ok rv ->
  stage_callback source stage = Ok (replaceString source s rv).
Proof.
  intros Henable Hregex Hvalue. unfold stage_callback, replace.
  now rewrite Henable, Hregex, Hvalue.
Qed.

Lemma stage_inserts_string_value (source s v pre post : string)
    (stage : Stage) :
  ToBoolean (enable stage) = true ->
  regex stage = JsString s ->
  value stage = JsString v ->
  group_references_only v = true ->
  occurrence_at s source pre post ->
  leftmost s source pre ->
  stage_callback source stage = Ok (pre +:+ v +:+ post).
Proof.
  intros Henable Hregex Hvalue Hgro Hocc Hleft.
  rewrite (stage_string_regex source s stage (RVString v) Henable Hregex)
    by now rewrite Hvalue.
  rewrite (replaceString_leftmost _ _ pre post _ Hocc Hleft). simpl.
  now rewrite GetSubstitution_group_references.
Qed.

(** X8.  With a string [regex] (whatever characters it is made of) and a
    string [value] in which every [$] is followed by a digit, none at all
    included, an enabled stage puts [value] as it is written in place of the
    leftmost occurrence of [regex]: [$1] is no back-reference there.  The
    text grows by the difference of the two lengths. *)
Theorem string_value_inserted_as_written (source s v pre post : string)
    (stage : Stage) :
  ToBoolean (enable stage) = true ->
  regex stage = JsString s ->
  value stage = JsString v ->
  group_references_only v = true ->
  occurrence_at s source pre post ->
  leftmost s source pre ->
  stage_callback source stage = Ok (pre +:+ v +:+ post)
  /\ String.length (pre +:+ v +:+ post) + String.length s
     = String.length source + String.length v.
Proof.
  intros Henable Hregex Hvalue Hgro Hocc Hleft. split.
  - now apply (stage_inserts_string_value source s).
  - unfold occurrence_at in Hocc. rewrite Hocc, !length_append. lia.
Qed.

(** X9.  The empty string as [regex] occurs at the start of every text: an
    enabled stage puts its [value] in front of the text. *)
Theorem empty_regex_prepends (source v : string) (fl : option string)
    (e : JsValue) :
  ToBoolean e = true ->
  group_references_only v = true ->
  stage_callback source (mkStage (JsString EmptyString) fl (JsString v) e)
  = Ok (v +:+ source).
Proof.
  intros Henable Hgro.
  apply (stage_inserts_string_value source EmptyString v EmptyString
           source); try assumption; try reflexivity.
  intros pre' post' _. simpl. lia.
Qed.

(** X10.  With a string [regex] and a function [value], the function is
    called for the leftmost occurrence with an object that has the string at
    key [0], the offset of the occurrence at [index], the whole text at
    [input], and no group at the keys [1], [2], ...; what it returns is
    put in place of the occurrence as it is, [$] included. *)
Theorem string_regex_function_record (source s pre post : string)
    (stage : Stage) (valueFn : MatchRecord -> string) :
  ToBoolean (enable stage) = true ->
  regex stage = JsString s ->
  value stage = JsFunction valueFn ->
  occurrence_at s source pre post ->
  leftmost s source pre ->
  exists record : MatchRecord,
    stage_callback source stage = Ok (pre +:+ valueFn record +:+ post)
    /\ record !! "0" = Some (PString s)
    /\ (forall i, record !! ToString_nat (S i) = None)
    /\ record !! "index" = Some (PNumber (Z.of_nat (String.length pre)))
    /\ record !! "input" = Some (PString source).
Proof.
  intros Henable Hregex Hvalue Hocc Hleft.
  destruct (getMatchFn_record valueFn [PString s]
              (PNumber (Z.of_nat (String.length pre))) (PString source))
    as (record & Hcall & Hitems & Hindex & Hinput & _).
  exists record. repeat split; try assumption.
  - rewrite (stage_string_regex source s stage (RVFunction (getMatchFn valueFn))
               Henable Hregex) by now rewrite Hvalue.
    rewrite (replaceString_leftmost _ _ pre post _ Hocc Hleft). simpl.
    simpl in Hcall. now rewrite Hcall.
  - apply (Hitems 0).
  - intros i. apply (Hitems (S i)).
Qed.

(** X11.  Called with fewer than two arguments, the function [getMatchFn]
    returns still calls [valueFn] once: [index] is [undefined], [input] is
    the only argument or [undefined], and no key [0], [1], ... is set. *)
Theorem getMatchFn_few_arguments (valueFn : MatchRecord -> string)
    (arguments : list Prim) :
  length arguments < 2 ->
  exists record : MatchRecord,
    getMatchFn valueFn arguments = valueFn record
    /\ record !! "index" = Some PUndefined
    /\ record !! "input" = Some (default PUndefined (head arguments))
    /\ (forall i, record !! ToString_nat i = None).
Proof.
  intros Hlen. unfold getMatchFn. eexists. split; [reflexivity |].
  assert (Hnot : forall i key,
    NilEmpty.uint_of_string key = None -> key <> ToString_nat i).
  { intros i key Hkey Heq. now apply (ToString_nat_numeral i key). }
  destruct arguments as [|a [|b rest]]; [| |simpl in Hlen; lia]; simpl.
  - repeat split; intros i;
      rewrite !lookup_insert_ne, lookup_empty by now apply Hnot.
    reflexivity.
  - repeat split; intros i;
      rewrite !lookup_insert_ne, lookup_empty by now apply Hnot.
    reflexivity.
Qed.

End Templates.

(** ** What a RegExp object as [regex] replaces *)

Section Matches.
Context `{RegExpHost}.

Lemma substring_empty (s : string) (n : nat) : substring n 0 s = EmptyString.
Proof.
  revert n. induction s as [|c s IH]; intros [|n]; simpl; try reflexivity.
  apply IH.
Qed.

Lemma append_nil_r (s : string) : s +:+ EmptyString = s.
Proof.
  induction s as [|c s IH]; [reflexivity |].
  rewrite append_cons. now rewrite IH.
Qed.

(** The search finds the first index at which the matcher succeeds. *)
Lemma scan_finds (p : Pattern) (f : RegExpFlags) (S : string)
    (n a i l : nat) (caps : list (option string)) :
  (forall j, a <= j < i -> matcher p f S j = None) ->
  matcher p f S i = Some (l, caps) ->
  a <= i < a + n ->
  sticky f = false ->
  scan p f S n a = Some (i, l, caps).
Proof.
  intros Hnone Hsome Hrange Hsticky. revert a Hnone Hrange.
  induction n as [|n IH]; intros a Hnone Hrange; [lia |].
  simpl. destruct (Nat.eq_dec a i) as [->|Hne].
  - now rewrite Hsome.
  - rewrite (Hnone a) by lia. rewrite Hsticky.
    apply IH; [intros j Hj; apply Hnone; lia | lia].
Qed.

(** X12.  With a RegExp object that is neither global nor sticky once
    resolved, an enabled stage replaces the first match and nothing else: the
    text before the first index at which the pattern matches and the text
    after the match are kept, later matches included.  A string [value]
    without [$] is put there as it is. *)
Theorem regexp_replaces_first_match (source : string) (stage : Stage)
    (R : RegExp) (rv : ReplaceValue) (i l : nat)
    (caps : list (option string)) :
  ToBoolean (enable stage) = true ->
  getRegex (regex stage) (flags stage) = Ok (SVRegExp R) ->
  global (re_flags R) = false ->
  sticky (re_flags R) = false ->
  getValueOrMatchFn (value stage) = Ok rv ->
  (forall j, j < i -> matcher (re_source R) (re_flags R) source j = None) ->
  matcher (re_source R) (re_flags R) source i = Some (l, caps) ->
  i + l <= String.length source ->
  stage_callback source stage
  = Ok (substring 0 i source
          +:+ replacement_for rv (substring i l source) caps i source
          +:+ substringFrom (i + l) source)
  /\ (forall v, rv = RVString v -> no_dollar v = true ->
        stage_callback source stage
        = Ok (substring 0 i source +:+ v +:+ substringFrom (i + l) source)).
Proof.
  intros Henable Hregex Hglobal Hsticky Hvalue Hnone Hsome Hle.
  assert (Hresult :
    stage_callback source stage
    = Ok (substring 0 i source
            +:+ replacement_for rv (substring i l source) caps i source
            +:+ substringFrom (i + l) source)).
  { unfold stage_callback, replace. rewrite Henable, Hregex, Hvalue.
    cbn [mbind result_bind String_prototype_replace]. f_equal.
    unfold RegExpReplace. rewrite Hglobal.
    replace (String.length source + 2)
      with (Datatypes.S (String.length source + 1)) by lia.
    cbn [collect]. unfold RegExpBuiltinExec.
    rewrite Hglobal, Hsticky. cbn [orb].
    rewrite (scan_finds _ _ _ _ 0 i l caps); try assumption;
      [| intros j Hj; apply Hnone; lia | lia].
    cbn [splice res_index res_matched res_captures].
    replace (Nat.min i (String.length source)) with i by lia.
    cbn [Nat.leb]. rewrite Nat.sub_0_r, append_nil.
    rewrite length_substring.
    replace (i + Nat.min l (String.length source - i)) with (i + l) by lia.
    destruct (Nat.leb_spec (String.length source) (i + l)) as [Hend|Hmore].
    - assert (Htail : substringFrom (i + l) source = EmptyString).
      { unfold substringFrom.
        replace (String.length source - (i + l)) with 0 by lia.
        apply substring_empty. }
      now rewrite Htail, append_nil_r.
    - now rewrite append_assoc. }
  split; [exact Hresult |].
  intros v -> Hv. rewrite Hresult. simpl.
  now rewrite GetSubstitution_no_dollar.
Qed.

Lemma non_overlapping_from (lo lo' : nat) (results : list ExecResult) :
  lo <= lo' -> non_overlapping lo' results -> non_overlapping lo results.
Proof.
  destruct results as [|result results]; simpl; [trivial |].
  intros Hle [Hlo Hrest]. split; [lia | exact Hrest].
Qed.

Lemma collect_non_overlapping (n : nat) (R : RegExp) (S : string) :
  global (re_flags R) = true ->
  non_overlapping (lastIndex R) (collect n R S)
  /\ Forall (fun result => res_index result <= String.length S)
       (collect n R S).
Proof.
  revert R. induction n as [|n IH]; intros R Hglobal; [now split |].
  simpl. unfold RegExpBuiltinExec. rewrite Hglobal. simpl.
  destruct (scan _ _ _ _ _) as [[[i l] caps]|] eqn:Hscan; [|now split].
  apply scan_range in Hscan. simpl.
  assert (Hlen : String.length (substring i l S) <= l).
  { rewrite length_substring. lia. }
  assert (Hnonempty :
    substring i l S <> EmptyString -> 1 <= String.length (substring i l S)).
  { intros Hne. destruct (substring i l S); [congruence | simpl; lia]. }
  destruct (String.eqb_spec (substring i l S) EmptyString) as [Hempty|Hne].
  - destruct (IH (mkRegExp (re_source R) (re_flags R) (Datatypes.S (i + l)))
                Hglobal) as [Hrest Hbound].
    split; [split; [lia |] | constructor; [simpl; lia | exact Hbound]].
    eapply non_overlapping_from; [|exact Hrest].
    rewrite Hempty. simpl. lia.
  - destruct (IH (mkRegExp (re_source R) (re_flags R) (i + l)) Hglobal)
      as [Hrest Hbound].
    split; [split; [lia |] | constructor; [simpl; lia | exact Hbound]].
    eapply non_overlapping_from; [|exact Hrest].
    specialize (Hnonempty Hne). simpl. lia.
Qed.

(** X13.  The matches [String.prototype.replace] collects for a RegExp
    object, global or not, come from left to right and do not overlap: each
    starts at or after the end of the one before it, at a greater index, and
    none starts beyond the end of the text. *)
Theorem matches_left_to_right (R : RegExp) (S : string) :
  let R0 :=
    if global (re_flags R) then mkRegExp (re_source R) (re_flags R) 0 else R in
  non_overlapping 0 (collect (String.length S + 2) R0 S)
  /\ Forall (fun result => res_index result <= String.length S)
       (collect (String.length S + 2) R0 S).
Proof.
  destruct (global (re_flags R)) eqn:Hglobal; cbv zeta.
  - now apply (collect_non_overlapping _ (mkRegExp _ _ 0)).
  - replace (String.length S + 2) with (Datatypes.S (String.length S + 1))
      by lia.
    simpl. unfold RegExpBuiltinExec. rewrite Hglobal.
    destruct (scan _ _ _ _ _) as [[[i l] caps]|] eqn:Hscan; [|now split].
    apply scan_range in Hscan. simpl.
    split; [split; [lia | exact I] |].
    constructor; [simpl | constructor].
    destruct (sticky (re_flags R)); simpl in Hscan; lia.
Qed.

End Matches.

(** ** The claims on sample inputs *)

Import Backtracking Samples.

(** C3.  Where the code departs from it.  Given as the string
    ["(\d+)-(\d+)"], the pattern is searched for as it is written:
    ["10-20"] does not contain it, the value function is not called and the
    text comes back unchanged, not as "10+20".  And when the replace callback
    is called with one more argument after the input, as the host does for a
    pattern with named groups, [getMatchFn] takes the last two arguments
    for offset and input all the same: the input ends up at [index], the
    extra argument at [input], and the offset at the numeric key after the
    groups. *)
Theorem match_function_misses_string_pattern :
  (forall valueFn : MatchRecord -> string,
     regexReplaceLoader (single (numbers_as_string valueFn)) "10-20"
     = Ok "10-20")
  /\ regexReplaceLoader (single (numbers_as_string plus_of_groups)) "10-20"
     <> Ok "10+20"
  /\ (forall (valueFn : MatchRecord -> string) (items : list Prim)
             (offset input groups : Prim),
        exists record : MatchRecord,
          getMatchFn valueFn (items ++ [offset; input; groups])
          = valueFn record
          /\ record !! "index" = Some input
          /\ record !! "input" = Some groups
          /\ record !! ToString_nat (length items) = Some offset).
Proof.
  split; [|split].
  - intros valueFn. vm_compute. reflexivity.
  - vm_compute. discriminate.
  - intros valueFn items offset input groups.
    destruct (getMatchFn_record valueFn (items ++ [offset]) input groups)
      as (record & Hcall & Hitems & Hindex & Hinput & _).
    exists record. rewrite <- app_assoc in Hcall. simpl in Hcall.
    repeat split; try assumption.
    rewrite Hitems, lookup_app_r, Nat.sub_diag by lia. reflexivity.
Qed.

(** With the pattern given as the RegExp object [/(\d+)-(\d+)/], which has
    no named group, the value function receives
    [{0: "10-20", 1: "10", 2: "20", index: 0, input: "10-20"}] for "10-20",
    and returning [match[1] + "+" + match[2]] gives "10+20". *)
Lemma numbers_regexp_object (valueFn : MatchRecord -> string) :
  regexReplaceLoader (single (numbers valueFn)) "10-20"
  = Ok (valueFn record_10_20)
  /\ regexReplaceLoader (single (numbers plus_of_groups)) "10-20" = Ok "10+20".
Proof. split; vm_compute; reflexivity. Qed.

(** C1 fails as stated: a string [regex] is searched for as it is written,
    so "[0-9]+" and "[0-9]" find nothing in "abc123" and "a1b2c3", and a
    string that does occur is replaced once, not everywhere. *)
Lemma string_pattern_taken_literally :
  regexReplaceLoader (single digits_to_X) "abc123" = Ok "abc123"
  /\ regexReplaceLoader (single digits_to_X) "abc123" <> Ok "abcX"
  /\ regexReplaceLoader (single digit_to_hash) "a1b2c3" = Ok "a1b2c3"
  /\ regexReplaceLoader (single digit_to_hash) "a1b2c3" <> Ok "a#b#c#"
  /\ regexReplaceLoader (single one_to_hash) "a1b1c1" = Ok "a#b1c1"
  /\ regexReplaceLoader (single one_to_hash) "a1b1c1" <> Ok "a#b#c#".
Proof. repeat split; try reflexivity; vm_compute; discriminate. Qed.

(** C2 fails as stated: a single configuration whose [enable] is absent
    (or false) returns the text unchanged, although its substitution would
    change it. *)
Lemma single_stage_needs_enable :
  regexReplaceLoader (single (a_to_Z JsUndefined)) "abc" = Ok "abc"
  /\ regexReplaceLoader (single (a_to_Z (JsBool false))) "abc" = Ok "abc"
  /\ regexReplaceLoader (single (a_to_Z (JsBool true))) "abc" = Ok "Zbc"
  /\ regexReplaceLoader (single (a_to_Z JsUndefined)) "abc"
     <> regexReplaceLoader (single (a_to_Z (JsBool true))) "abc".
Proof. repeat split; try reflexivity; vm_compute; discriminate. Qed.

(** The theorems above, applied to sample inputs. *)

Lemma plain_string_pattern_replaces_leftmost_witness :
  occurrence_at "1" "b1o1" "b" "o1"
  /\ leftmost "1" "b1o1" "b"
  /\ regexReplaceLoader (pipeline [f_to_b; one_to_hash; b_to_c]) "f1o1"
     = Ok "c#o1".
Proof.
  assert (Hleft : leftmost "1" "b1o1" "b").
  { intros [|c pre'] post' Hocc; [discriminate Hocc |].
    simpl. apply le_n_S, Nat.le_0_l. }
  split; [reflexivity |]. split; [exact Hleft |].
  destruct plain_string_pattern_replaces_leftmost as [Hgeneral _].
  destruct (Hgeneral (pipeline [f_to_b; one_to_hash; b_to_c])
              [f_to_b] [b_to_c] one_to_hash "1" (RVString "#") "f1o1" "b1o1"
              eq_refl eq_refl eq_refl eq_refl eq_refl eq_refl eq_refl)
    as [_ Hreplace].
  rewrite (Hreplace "b" "o1" eq_refl Hleft). reflexivity.
Defined.

Lemma single_stage_gated_by_enable_witness :
  ToBoolean (enable (a_to_Z JsUndefined)) = false
  /\ regexReplaceLoader (single (a_to_Z JsUndefined)) "abc" = Ok "abc"
  /\ ToBoolean (enable (a_to_Z (JsBool true))) = true
  /\ regexReplaceLoader (single (a_to_Z (JsBool true))) "abc" = Ok "Zbc".
Proof.
  split; [reflexivity |]. split.
  - exact (proj1 (single_stage_gated_by_enable (a_to_Z JsUndefined) "abc")
             eq_refl).
  - split; [reflexivity |].
    exact (proj2 (proj2 (single_stage_gated_by_enable
                           (a_to_Z (JsBool true)) "abc"))
             eq_refl (SVString "a") (RVString "Z") eq_refl eq_refl).
Defined.

Lemma invalid_regex_type_throws_witness :
  forEach [f_to_b] "foo" = Ok "boo"
  /\ ToBoolean (enable regex_42) = true
  /\ typeOf (regex regex_42) = "Number"
  /\ regexReplaceLoader (pipeline [f_to_b; regex_42; b_to_c]) "foo"
     = Throw (Error regex_message).
Proof.
  repeat (split; [reflexivity |]).
  refine (proj1 (invalid_regex_type_throws
                   (pipeline [f_to_b; regex_42; b_to_c])
                   [f_to_b] [b_to_c] regex_42 "foo" "boo"
                   eq_refl eq_refl eq_refl _ _)); simpl; discriminate.
Defined.

Lemma invalid_value_type_throws_witness :
  forEach [f_to_b] "foo" = Ok "boo"
  /\ ToBoolean (enable value_42) = true
  /\ getRegex (regex value_42) (flags value_42) = Ok (SVString "a")
  /\ typeof (value value_42) = "number"
  /\ regexReplaceLoader (pipeline [f_to_b; value_42; b_to_c]) "foo"
     = Throw (Error value_message).
Proof.
  repeat (split; [reflexivity |]).
  refine (proj1 (invalid_value_type_throws
                   (pipeline [f_to_b; value_42; b_to_c])
                   [f_to_b] [b_to_c] value_42 "foo" "boo" (SVString "a")
                   eq_refl eq_refl eq_refl eq_refl _ _)); simpl; discriminate.
Defined.

Lemma getRegex_resolution_witness :
  parse_flags "gi"
  = Some (mkFlags false true true false false false false false)
  /\ getRegex (JsRegExp (mkRegExp a_digit noFlags 7)) (Some "gi")
     = Ok (SVRegExp
             (mkRegExp a_digit
                (mkFlags false true true false false false false false) 0)).
Proof.
  split; [reflexivity |].
  exact (proj1 (proj2 getRegex_resolution) (mkRegExp a_digit noFlags 7) "gi"
           (mkFlags false true true false false false false false)
           eq_refl eq_refl).
Defined.


Lemma disabled_stage_skipped_witness :
  ToBoolean (enable (a_to_Z (JsBool false))) = false
  /\ stage_callback "bao" (a_to_Z (JsBool false)) = Ok "bao"
  /\ regexReplaceLoader
       (pipeline [f_to_b; a_to_Z (JsBool false); b_to_c]) "fao"
     = Ok "cao".
Proof.
  split; [reflexivity |].
  destruct (proj1 disabled_stage_skipped
              (pipeline [f_to_b; a_to_Z (JsBool false); b_to_c])
              [f_to_b] [b_to_c] (a_to_Z (JsBool false)) "fao"
              eq_refl eq_refl) as [Hskip Hrun].
  split; [apply Hskip |]. rewrite Hrun. reflexivity.
Defined.

Lemma disabled_stage_not_inspected_witness :
  ToBoolean (JsBool false) = false
  /\ regexReplaceLoader
       (pipeline [f_to_b; a_to_Z (JsBool false); b_to_c]) "fao"
     = regexReplaceLoader
         (pipeline [f_to_b; both_42 (JsBool false); b_to_c]) "fao"
  /\ regexReplaceLoader (single (both_42 JsNull)) "fao" = Ok "fao".
Proof.
  split; [reflexivity |]. split.
  - exact (proj1 disabled_stage_not_inspected
             (stage_of JsUndefined JsUndefined JsUndefined)
             [f_to_b] [b_to_c] (JsBool false)
             (JsString "a") (JsNumber 42) (JsString "Z") (JsNumber 42)
             None None "fao" eq_refl).
  - exact (proj1 (proj2 disabled_stage_not_inspected)
             (JsNumber 42) (JsNumber 42) JsNull None "fao" eq_refl).
Defined.

(** The source of [two_numbers] written as a string is found in a text
    that contains these very characters, and the value function is called
    there without groups. *)
Lemma numbers_as_string_found :
  regexReplaceLoader (single (numbers_as_string plus_of_groups))
    "a(\d+)-(\d+)b"
  = Ok "aundefined+undefinedb".
Proof. vm_compute. reflexivity. Qed.

(** The further theorems, applied to sample inputs. *)

Lemma stage_throw_classified_witness :
  throw_reason value_42 (Error value_message)
  /\ typeof (value value_42) <> "function"
  /\ stage_callback "abc" value_42 = Throw (Error value_message).
Proof.
  assert (Hreason : throw_reason value_42 (Error value_message)).
  { split; [reflexivity |]. right; right. split; [reflexivity |].
    split; [exists (SVString "a"); reflexivity |].
    split; simpl; discriminate. }
  assert (Hvalue : typeof (value value_42) <> "function").
  { simpl. discriminate. }
  split; [exact Hreason |]. split; [exact Hvalue |].
  pose proof (proj1 (stage_throw_classified "abc" value_42
                       (Error value_message)) Hreason) as Hthrow.
  pose proof (proj2 (stage_throw_classified "abc" value_42
                       (Error value_message)) Hvalue Hthrow) as _.
  exact Hthrow.
Defined.

Lemma throw_independent_of_source_witness :
  calls_no_function (pipeline [f_to_b; regex_42; b_to_c])
  /\ regexReplaceLoader (pipeline [f_to_b; regex_42; b_to_c]) "foo"
     = Throw (Error regex_message)
  /\ regexReplaceLoader (pipeline [f_to_b; regex_42; b_to_c]) "xyz"
     = Throw (Error regex_message).
Proof.
  assert (Hnone : calls_no_function (pipeline [f_to_b; regex_42; b_to_c])).
  { unfold calls_no_function.
    apply List.Forall_cons; [intros _; simpl; discriminate |].
    apply List.Forall_cons; [intros _; simpl; discriminate |].
    apply List.Forall_cons; [intros _; simpl; discriminate |].
    apply List.Forall_nil. }
  split; [exact Hnone |]. split; [reflexivity |].
  exact (throw_independent_of_source
           (pipeline [f_to_b; regex_42; b_to_c]) "foo" "xyz"
           (Error regex_message) Hnone eq_refl).
Defined.

Lemma string_valued_stages_return_witness :
  string_valued f_to_b
  /\ string_valued
       (stage_of (JsRegExp (mkRegExp a_digit noFlags 0)) (JsString "#")
          (JsBool true))
  /\ ToBoolean (enable (both_42 (JsBool false))) = false
  /\ exists out,
       regexReplaceLoader
         (pipeline
            [f_to_b;
             stage_of (JsRegExp (mkRegExp a_digit noFlags 0)) (JsString "#")
               (JsBool true);
             both_42 (JsBool false)])
         "f10-20"
       = Ok out.
Proof.
  assert (Hstring : string_valued f_to_b).
  { split; [left |]; reflexivity. }
  assert (Hregexp :
    string_valued
      (stage_of (JsRegExp (mkRegExp a_digit noFlags 0)) (JsString "#")
         (JsBool true))).
  { split; [right; split |]; reflexivity. }
  split; [exact Hstring |]. split; [exact Hregexp |]. split; [reflexivity |].
  apply string_valued_stages_return.
  apply List.Forall_cons; [intros _; exact Hstring |].
  apply List.Forall_cons; [intros _; exact Hregexp |].
  apply List.Forall_cons; [|apply List.Forall_nil].
  intros Henabled. discriminate Henabled.
Defined.

Lemma bad_flags_throw_SyntaxError_witness :
  contains "x" "gx" = true
  /\ is_flag_character "x" = false
  /\ regexReplaceLoader (pipeline [f_to_b; digit_with_flags "gx"; b_to_c])
       "foo"
     = Throw SyntaxError
  /\ contains "g" "ig" = true
  /\ regexReplaceLoader (single (digit_with_flags "gig")) "foo"
     = Throw SyntaxError.
Proof.
  split; [reflexivity |]. split; [reflexivity |]. split.
  - refine (bad_flags_throw_SyntaxError
              (pipeline [f_to_b; digit_with_flags "gx"; b_to_c])
              [f_to_b] [b_to_c] (digit_with_flags "gx")
              (mkRegExp a_digit noFlags 0) "gx" "foo" "boo"
              eq_refl eq_refl eq_refl eq_refl eq_refl _).
    left. exists "x"%char. split; reflexivity.
  - split; [reflexivity |].
    refine (bad_flags_throw_SyntaxError
              (single (digit_with_flags "gig"))
              [] [] (digit_with_flags "gig")
              (mkRegExp a_digit noFlags 0) "gig" "foo" "foo"
              eq_refl eq_refl eq_refl eq_refl eq_refl _).
    right. exists EmptyString, "g"%char, "ig". split; reflexivity.
Defined.

Lemma string_value_inserted_as_written_witness :
  occurrence_at "[0-9]" "a[0-9]b[0-9]" "a" "b[0-9]"
  /\ leftmost "[0-9]" "a[0-9]b[0-9]" "a"
  /\ group_references_only "<$1>" = true
  /\ stage_callback "a[0-9]b[0-9]"
       (stage_of (JsString "[0-9]") (JsString "<$1>") (JsBool true))
     = Ok "a<$1>b[0-9]".
Proof.
  assert (Hleft : leftmost "[0-9]" "a[0-9]b[0-9]" "a").
  { intros [|c pre'] post' Hocc; [discriminate Hocc |].
    simpl. apply le_n_S, Nat.le_0_l. }
  split; [reflexivity |]. split; [exact Hleft |]. split; [reflexivity |].
  exact (proj1 (string_value_inserted_as_written
                  "a[0-9]b[0-9]" "[0-9]" "<$1>" "a" "b[0-9]"
                  (stage_of (JsString "[0-9]") (JsString "<$1>") (JsBool true))
                  eq_refl eq_refl eq_refl eq_refl eq_refl Hleft)).
Defined.

Lemma empty_regex_prepends_witness :
  stage_callback "abc"
    (stage_of (JsString EmptyString) (JsString "X") (JsBool true))
  = Ok "Xabc".
Proof.
  exact (empty_regex_prepends "abc" "X" None (JsBool true) eq_refl eq_refl).
Defined.

Lemma string_regex_function_record_witness :
  leftmost "1" "a1b1" "a"
  /\ exists record : MatchRecord,
       stage_callback "a1b1"
         (stage_of (JsString "1") (JsFunction plus_of_groups) (JsBool true))
       = Ok ("a" +:+ plus_of_groups record +:+ "b1")
       /\ record !! "0" = Some (PString "1")
       /\ (forall i, record !! ToString_nat (S i) = None)
       /\ record !! "index" = Some (PNumber 1)
       /\ record !! "input" = Some (PString "a1b1").
Proof.
  assert (Hleft : leftmost "1" "a1b1" "a").
  { intros [|c pre'] post' Hocc; [discriminate Hocc |].
    simpl. apply le_n_S, Nat.le_0_l. }
  split; [exact Hleft |].
  exact (string_regex_function_record "a1b1" "1" "a" "b1"
           (stage_of (JsString "1") (JsFunction plus_of_groups) (JsBool true))
           plus_of_groups eq_refl eq_refl eq_refl eq_refl Hleft).
Defined.

Lemma getMatchFn_few_arguments_witness :
  exists record : MatchRecord,
    getMatchFn plus_of_groups [PString "x"] = plus_of_groups record
    /\ record !! "index" = Some PUndefined
    /\ record !! "input" = Some (PString "x")
    /\ (forall i, record !! ToString_nat i = None).
Proof.
  exact (getMatchFn_few_arguments plus_of_groups [PString "x"] (le_n 2)).
Defined.

Lemma regexp_replaces_first_match_witness :
  matcher a_digit noFlags "a1b2" 0 = None
  /\ matcher a_digit noFlags "a1b2" 1 = Some (1, [])
  /\ stage_callback "a1b2"
       (stage_of (JsRegExp (mkRegExp a_digit noFlags 0)) (JsString "#")
          (JsBool true))
     = Ok "a#b2".
Proof.
  split; [reflexivity |]. split; [reflexivity |].
  refine (proj1 (regexp_replaces_first_match "a1b2"
                   (stage_of (JsRegExp (mkRegExp a_digit noFlags 0))
                      (JsString "#") (JsBool true))
                   (mkRegExp a_digit noFlags 0) (RVString "#") 1 1 []
                   eq_refl eq_refl eq_refl eq_refl eq_refl _ eq_refl _)).
  - intros [|j] Hj; [reflexivity |].
    apply le_S_n in Hj. inversion Hj.
  - repeat constructor.
Defined.
